(** * proxygen: the HTTP transaction core

    A shallow embedding of [HTTPTransactionIngressSM.h] and of the inline
    methods of [HTTPTransaction] (declared in the same translation unit),
    with the properties of the transaction that the specification states.

    Integers of the C++ code are [Z] with their ranges written out, the
    [double] of the priority summary is a primitive binary64 float, the
    [std::set] of stream ids is a [gset Z], and a failed [CHECK] is the
    [Fatal] outcome of a small error monad. *)

From Stdlib Require Import ZArith List Bool Lia.
From Stdlib Require Import Floats.PrimFloat Floats.SpecFloat Floats.FloatOps.
From stdpp Require Import base gmap sets list strings.

Local Open Scope Z_scope.

(** ** Machine integers *)

Definition UINT8_MAX : Z := 255.
Definition UINT16_MAX : Z := 65535.
Definition UINT64_MAX : Z := 18446744073709551615.

(** [uint8_t] and [uint64_t] arithmetic wraps around. *)
Definition wrap8 (z : Z) : Z := z mod (UINT8_MAX + 1).
Definition wrap64 (z : Z) : Z := z mod (UINT64_MAX + 1).

(** Conversion of a [uint64_t] to [double] (round to nearest even). *)
Definition double_of_uint64 (z : Z) : float :=
  SF2Prim (binary_normalize prec emax z 0 false).

(** ** Outcomes of methods that contain a CHECK

    [CHECK(c) << msg] terminates the process when [c] is false: the method
    neither returns nor leaves a transaction behind. *)

Inductive outcome (A : Type) : Type :=
| Returns (a : A)
| Fatal (msg : string).
Arguments Returns {A} a.
Arguments Fatal {A} msg.

Definition obind {A B : Type} (m : outcome A) (k : A -> outcome B) : outcome B :=
  match m with
  | Returns a => k a
  | Fatal msg => Fatal msg
  end.

Definition check (c : bool) (msg : string) : outcome unit :=
  if c then Returns tt else Fatal msg.

Notation "x <- m ;; k" := (obind m (fun x => k))
  (at level 100, m at next level, k at level 200, only parsing).
Notation "'CHECK' c 'orFatal' msg ;; k" := (obind (check c msg) (fun _ => k))
  (at level 100, c at next level, msg at next level, k at level 200,
   only parsing).

Definition refused {A : Type} (m : outcome A) : Prop :=
  match m with
  | Returns _ => False
  | Fatal _ => True
  end.

(** ** StateMachine<T> *)

Module StateMachine.

(** What the template parameter [T] of [StateMachine<T>] provides: the
    initial state and [find], here [HTTPTransactionIngressSMData] and
    its egress twin. *)
Class SMData (State Event : Type) : Type := {
  getInitialState : State;
  find : State -> Event -> State * bool
}.

Section Generic.
Context {State Event : Type} `{SMData State Event}.

(** Modelled from the spec: [StateMachine::getNewInstance] of
    proxygen/lib/utils/StateMachine.h, which is missing.  Spec 3: the
    initial state of both machines is [Start], the state that
    [getInitialState] names. *)
Definition getNewInstance : State := getInitialState.

(** Modelled from the spec: [StateMachine::transit] (StateMachine.h is
    missing).  Spec 4.1: each table maps (state, event) to
    (next_state, accepted) and unlisted pairs are rejected; spec 3: a
    rejected event never mutates state.  [transit] takes the state by
    reference: the result pairs the state afterwards with the returned
    flag. *)
Definition transit (state : State) (event : Event) : State * bool :=
  let '(newState, ok) := find state event in
  if ok then (newState, true) else (state, false).

(** Modelled from the spec: [StateMachine::canTransit] (StateMachine.h is
    missing): whether the table accepts the pair, the state left alone. *)
Definition canTransit (state : State) (event : Event) : bool :=
  snd (find state event).

(** The state after a whole sequence of events, rejected ones skipped. *)
Definition transitAll (state : State) (events : list Event) : State :=
  fold_left (fun s e => fst (transit s e)) events state.

End Generic.

End StateMachine.

(** ** HTTPTransactionIngressSMData *)

Module HTTPTransactionIngressSM.

(** The enumerations of the header, with their [NumStates] / [NumEvents]
    sentinels ("Must be last"), which name no state and no event. *)
Inductive State : Type :=
| Start
| HeadersReceived
| RegularBodyReceived
| ChunkHeaderReceived
| ChunkBodyReceived
| ChunkCompleted
| TrailersReceived
| UpgradeComplete
| EOMQueued
| ReceivingDone
| NumStates.

Inductive Event : Type :=
| onHeaders
| onBody
| onChunkHeader
| onChunkComplete
| onTrailers
| onUpgrade
| onEOM
| eomFlushed
| NumEvents.

#[global] Instance State_eq_dec : EqDecision State.
Proof. solve_decision. Defined.
#[global] Instance Event_eq_dec : EqDecision Event.
Proof. solve_decision. Defined.

(** The numeric value of an enumerator ([enum class State : uint8_t]). *)
Definition State_value (s : State) : Z :=
  match s with
  | Start => 0 | HeadersReceived => 1 | RegularBodyReceived => 2
  | ChunkHeaderReceived => 3 | ChunkBodyReceived => 4 | ChunkCompleted => 5
  | TrailersReceived => 6 | UpgradeComplete => 7 | EOMQueued => 8
  | ReceivingDone => 9 | NumStates => 10
  end.

(** A state of the machine is an enumerator below the sentinel. *)
Definition defined (s : State) : bool := State_value s <? State_value NumStates.

(** Modelled from the spec: the transition table behind
    [HTTPTransactionIngressSMData::find] (HTTPTransactionIngressSM.cpp is
    missing; the header only declares [find]).  The entries are the
    permitted transitions of spec 4.1, in its order; "any non-terminal
    post-headers state" for [onEOM] is read as the states between the
    headers and the queued end of message.  The last three entries let a
    body arrive in several pieces, as the handler's documentation in the
    header has it: [onBody] "can be called multiple times per
    transaction", and after [onUpgrade] "further data will be forwarded
    using the onBody() callback". *)
Definition transitions : list ((State * Event) * State) :=
  [ ((Start, onHeaders), HeadersReceived);
    ((HeadersReceived, onBody), RegularBodyReceived);
    ((HeadersReceived, onChunkHeader), ChunkHeaderReceived);
    ((HeadersReceived, onTrailers), TrailersReceived);
    ((HeadersReceived, onUpgrade), UpgradeComplete);
    ((HeadersReceived, onEOM), EOMQueued);
    ((ChunkHeaderReceived, onBody), ChunkBodyReceived);
    ((ChunkBodyReceived, onChunkComplete), ChunkCompleted);
    ((ChunkCompleted, onChunkHeader), ChunkHeaderReceived);
    ((ChunkCompleted, onTrailers), TrailersReceived);
    ((ChunkCompleted, onEOM), EOMQueued);
    ((RegularBodyReceived, onEOM), EOMQueued);
    ((ChunkHeaderReceived, onEOM), EOMQueued);
    ((ChunkBodyReceived, onEOM), EOMQueued);
    ((TrailersReceived, onEOM), EOMQueued);
    ((UpgradeComplete, onEOM), EOMQueued);
    ((EOMQueued, eomFlushed), ReceivingDone);
    ((RegularBodyReceived, onBody), RegularBodyReceived);
    ((ChunkBodyReceived, onBody), ChunkBodyReceived);
    ((UpgradeComplete, onBody), UpgradeComplete) ].

(** The entry of the table for a pair, if it has one. *)
Fixpoint entry (table : list ((State * Event) * State)) (s : State) (e : Event)
  : option State :=
  match table with
  | [] => None
  | ((s0, e0), s1) :: rest =>
      if decide (s0 = s /\ e0 = e) then Some s1 else entry rest s e
  end.

(** Modelled from the spec: the body of [find].  A listed pair gives its
    next state and [true]; an unlisted pair is rejected, and the state it
    reports is the one it was asked about. *)
Definition find (s : State) (e : Event) : State * bool :=
  match entry transitions s e with
  | Some s' => (s', true)
  | None => (s, false)
  end.

Definition getInitialState : State := Start.

#[global] Instance data : StateMachine.SMData State Event := {|
  StateMachine.getInitialState := getInitialState;
  StateMachine.find := find
|}.

End HTTPTransactionIngressSM.

(** ** HTTPTransactionEgressSMData *)

Module HTTPTransactionEgressSM.

(** Modelled from the spec: the enumerations of
    HTTPTransactionEgressSM.h, which is missing; spec 4.1 lists the egress
    states and events.  The header under verification names [Start],
    [EOMQueued], [SendingDone] and the events [sendHeaders],
    [sendChunkHeader], [sendChunkTerminator] and [sendTrailers]. *)
Inductive State : Type :=
| Start
| HeadersSent
| ChunkHeaderSent
| ChunkBodySent
| ChunkTerminatorSent
| TrailersSent
| RegularBodySent
| EOMQueued
| SendingDone.

Inductive Event : Type :=
| sendHeaders
| sendBody
| sendChunkHeader
| sendChunkTerminator
| sendTrailers
| sendEOM
| eomFlushed.

#[global] Instance State_eq_dec : EqDecision State.
Proof. solve_decision. Defined.
#[global] Instance Event_eq_dec : EqDecision Event.
Proof. solve_decision. Defined.

Definition getInitialState : State := Start.

Fixpoint entry (table : list ((State * Event) * State)) (s : State) (e : Event)
  : option State :=
  match table with
  | [] => None
  | ((s0, e0), s1) :: rest =>
      if decide (s0 = s /\ e0 = e) then Some s1 else entry rest s e
  end.

(** Modelled from the spec: one egress table that fits spec 4.1 ("headers
    once; optional chunk group, repeatable; optional single sendTrailers;
    terminal sendEOM; eomFlushed") and the egress sequences of the seed
    tests of spec 8.  HTTPTransactionEgressSM.cpp is missing, so the
    methods of the transaction below take the egress table as a
    parameter; this one instantiates it in the worked examples. *)
Definition transitions : list ((State * Event) * State) :=
  [ ((Start, sendHeaders), HeadersSent);
    ((HeadersSent, sendBody), RegularBodySent);
    ((RegularBodySent, sendBody), RegularBodySent);
    ((HeadersSent, sendChunkHeader), ChunkHeaderSent);
    ((ChunkHeaderSent, sendBody), ChunkBodySent);
    ((ChunkBodySent, sendChunkTerminator), ChunkTerminatorSent);
    ((ChunkTerminatorSent, sendChunkHeader), ChunkHeaderSent);
    ((HeadersSent, sendTrailers), TrailersSent);
    ((RegularBodySent, sendTrailers), TrailersSent);
    ((ChunkTerminatorSent, sendTrailers), TrailersSent);
    ((HeadersSent, sendEOM), EOMQueued);
    ((RegularBodySent, sendEOM), EOMQueued);
    ((ChunkTerminatorSent, sendEOM), EOMQueued);
    ((TrailersSent, sendEOM), EOMQueued);
    ((EOMQueued, eomFlushed), SendingDone) ].

(** Modelled from the spec: [HTTPTransactionEgressSMData::find] over that
    table; an unlisted pair is rejected. *)
Definition find (s : State) (e : Event) : State * bool :=
  match entry transitions s e with
  | Some s' => (s', true)
  | None => (s, false)
  end.

Definition specData : StateMachine.SMData State Event := {|
  StateMachine.getInitialState := getInitialState;
  StateMachine.find := find
|}.

End HTTPTransactionEgressSM.

(** ** Types the transaction refers to *)

(** Modelled from the spec: [HTTPCodec::StreamID] (HTTPCodec.h is missing).
    Spec 3: a stream identifier with a numeric form whose parity matters;
    an unsigned integer here. *)
Definition StreamID : Type := Z.

(** Modelled from the spec: [TransportDirection] (HTTPConstants.h is
    missing).  Spec 3: the direction is one of upstream and downstream. *)
Inductive TransportDirection : Type :=
| DOWNSTREAM
| UPSTREAM.

(** Modelled from the spec: [HTTPException::Direction] (HTTPException.h is
    missing).  Spec 7: errors carry a direction tag, ingress, egress or
    both; the header says the same of the exception given to [onError]. *)
Inductive Direction : Type :=
| INGRESS
| EGRESS
| INGRESS_AND_EGRESS.

(** Modelled from the spec: [ErrorCode] (missing), the closed enumeration
    of protocol error kinds of spec 6. *)
Inductive ErrorCode : Type :=
| NO_ERROR
| PROTOCOL_ERROR
| INTERNAL_ERROR
| FLOW_CONTROL_ERROR
| STREAM_CLOSED
| FRAME_SIZE_ERROR
| REFUSED_STREAM
| CANCEL
| COMPRESSION_ERROR
| CONNECT_ERROR
| ENHANCE_YOUR_CALM
| INADEQUATE_SECURITY
| HTTP_1_1_REQUIRED.

#[export] Instance TransportDirection_eq_dec : EqDecision TransportDirection.
Proof. solve_decision. Defined.
#[export] Instance Direction_eq_dec : EqDecision Direction.
Proof. solve_decision. Defined.
#[export] Instance ErrorCode_eq_dec : EqDecision ErrorCode.
Proof. solve_decision. Defined.

(** Modelled from the spec: [HTTPCodec::ExAttributes] (HTTPCodec.h is
    missing).  Spec 3: the attributes of an extended transaction record the
    control-stream id and the unidirectional flag. *)
Record ExAttributes : Type := mkExAttributes {
  controlStream : StreamID;
  unidirectional : bool
}.

(** [HTTPTransaction::Chunk]; [Chunk(inLength)] starts with the header
    unsent. *)
Record Chunk : Type := mkChunk {
  length : Z;
  headerSent : bool
}.
Definition newChunk (inLength : Z) : Chunk := mkChunk inLength false.

(** [HTTPHeaders] as the list of its name/value pairs. *)
Definition HTTPHeaders : Type := list (string * string).

(** Modelled from the spec: [HTTPEvent] (HTTPEvent.h is missing), the
    buffered ingress events of spec 4.3, one kind for each ingress entry
    point. *)
Inductive HTTPEvent : Type :=
| HEADERS_COMPLETE
| BODY (len : Z)
| CHUNK_HEADER (len : Z)
| CHUNK_COMPLETE
| TRAILERS_COMPLETE
| UPGRADE
| MESSAGE_COMPLETE.

(** A handler is known to the transaction by its address only. *)
Definition HandlerRef : Type := Z.

(** ** The state of an HTTPTransaction

    The data members that the methods below read or write, under the names
    and types of the class; the deferred egress body is kept as its chain
    length and the send window as the size it reports. *)

Record HTTPTransaction : Type := mkHTTPTransaction {
  deferredIngress_ : option (list HTTPEvent);
  deferredEgressBody_ : Z;
  direction_ : TransportDirection;
  id_ : StreamID;
  egressState_ : HTTPTransactionEgressSM.State;
  ingressState_ : HTTPTransactionIngressSM.State;
  sendWindow_ : Z;
  trailers_ : option HTTPHeaders;
  chunkHeaders_ : list Chunk;
  assocStreamId_ : option StreamID;
  exAttributes_ : option ExAttributes;
  pushedTransactions_ : gset StreamID;
  exTransactions_ : gset StreamID;
  insertDepth_ : Z;
  currentDepth_ : Z;
  cumulativeRatio_ : float;
  egressCalls_ : Z;
  lastResponseStatus_ : Z;
  pendingByteEvents_ : Z;
  ingressPaused_ : bool;
  egressPaused_ : bool;
  flowControlPaused_ : bool;
  handlerEgressPaused_ : bool;
  useFlowControl_ : bool;
  aborted_ : bool;
  partiallyReliable_ : bool
}.

(** Assignment to one member.  [rebuild t] spells the transaction out
    member by member; [assign member v t] is that term with the member
    replaced by [v]. *)
Definition rebuild (t : HTTPTransaction) : HTTPTransaction :=
  mkHTTPTransaction
    (deferredIngress_ t) (deferredEgressBody_ t) (direction_ t) (id_ t)
    (egressState_ t) (ingressState_ t) (sendWindow_ t) (trailers_ t)
    (chunkHeaders_ t) (assocStreamId_ t) (exAttributes_ t)
    (pushedTransactions_ t) (exTransactions_ t) (insertDepth_ t)
    (currentDepth_ t) (cumulativeRatio_ t) (egressCalls_ t)
    (lastResponseStatus_ t) (pendingByteEvents_ t) (ingressPaused_ t)
    (egressPaused_ t) (flowControlPaused_ t) (handlerEgressPaused_ t)
    (useFlowControl_ t) (aborted_ t) (partiallyReliable_ t).

Ltac assign member v t :=
  let whole := eval cbv [rebuild] in (rebuild t) in
  match eval pattern (member t) in whole with
  | ?updated _ => let r := eval cbv beta in (updated v) in exact r
  end.

Definition set_deferredIngress_ (v : option (list HTTPEvent)) (t : HTTPTransaction) : HTTPTransaction :=
  ltac:(assign deferredIngress_ v t).
Definition set_deferredEgressBody_ (v : Z) (t : HTTPTransaction) : HTTPTransaction :=
  ltac:(assign deferredEgressBody_ v t).
Definition set_egressState_ (v : HTTPTransactionEgressSM.State) (t : HTTPTransaction) : HTTPTransaction :=
  ltac:(assign egressState_ v t).
Definition set_ingressState_ (v : HTTPTransactionIngressSM.State) (t : HTTPTransaction) : HTTPTransaction :=
  ltac:(assign ingressState_ v t).
Definition set_sendWindow_ (v : Z) (t : HTTPTransaction) : HTTPTransaction :=
  ltac:(assign sendWindow_ v t).
Definition set_trailers_ (v : option HTTPHeaders) (t : HTTPTransaction) : HTTPTransaction :=
  ltac:(assign trailers_ v t).
Definition set_chunkHeaders_ (v : list Chunk) (t : HTTPTransaction) : HTTPTransaction :=
  ltac:(assign chunkHeaders_ v t).
Definition set_pushedTransactions_ (v : gset StreamID) (t : HTTPTransaction) : HTTPTransaction :=
  ltac:(assign pushedTransactions_ v t).
Definition set_exTransactions_ (v : gset StreamID) (t : HTTPTransaction) : HTTPTransaction :=
  ltac:(assign exTransactions_ v t).
Definition set_cumulativeRatio_ (v : float) (t : HTTPTransaction) : HTTPTransaction :=
  ltac:(assign cumulativeRatio_ v t).
Definition set_egressCalls_ (v : Z) (t : HTTPTransaction) : HTTPTransaction :=
  ltac:(assign egressCalls_ v t).
Definition set_lastResponseStatus_ (v : Z) (t : HTTPTransaction) : HTTPTransaction :=
  ltac:(assign lastResponseStatus_ v t).
Definition set_pendingByteEvents_ (v : Z) (t : HTTPTransaction) : HTTPTransaction :=
  ltac:(assign pendingByteEvents_ v t).
Definition set_ingressPaused_ (v : bool) (t : HTTPTransaction) : HTTPTransaction :=
  ltac:(assign ingressPaused_ v t).
Definition set_egressPaused_ (v : bool) (t : HTTPTransaction) : HTTPTransaction :=
  ltac:(assign egressPaused_ v t).
Definition set_flowControlPaused_ (v : bool) (t : HTTPTransaction) : HTTPTransaction :=
  ltac:(assign flowControlPaused_ v t).
Definition set_handlerEgressPaused_ (v : bool) (t : HTTPTransaction) : HTTPTransaction :=
  ltac:(assign handlerEgressPaused_ v t).
Definition set_aborted_ (v : bool) (t : HTTPTransaction) : HTTPTransaction :=
  ltac:(assign aborted_ v t).
Definition set_partiallyReliable_ (v : bool) (t : HTTPTransaction) : HTTPTransaction :=
  ltac:(assign partiallyReliable_ v t).

(** ** The collaborators of a transaction *)

(** Modelled from the spec: [HTTPCodec] (HTTPCodec.h is missing), cut down
    to the two queries that the transaction makes of it. *)
Module HTTPCodec.
Record t : Type := mk {
  supportsParallelRequests : bool;
  supportsPushTransactions : bool
}.
End HTTPCodec.

(** [HTTPTransaction::Transport] is an abstract class; an implementation of
    it supplies the codec and creates the pushed and extended
    transactions. *)
Module Transport.
Record t : Type := mk {
  getCodec : HTTPCodec.t;
  newPushedTransaction : StreamID -> HandlerRef -> option HTTPTransaction;
  newExTransaction : HandlerRef -> StreamID -> bool -> option HTTPTransaction
}.

(** A transport that honours the [assocStreamId] argument: the pushed
    transaction it hands out is associated with the stream it was asked
    for. *)
Definition honoursAssocStream (tr : t) : Prop :=
  forall assocStreamId handler txn,
    newPushedTransaction tr assocStreamId handler = Some txn ->
    assocStreamId_ txn = Some assocStreamId.
End Transport.

(** ** The inline methods of HTTPTransaction *)

Section Methods.
Import StateMachine.

(** The egress table ([HTTPTransactionEgressSMData::find]) and the
    transport are parameters of every method. *)
Context {egressSM : SMData HTTPTransactionEgressSM.State
                           HTTPTransactionEgressSM.Event}.
Context (transport_ : Transport.t).

Abbreviation EgressState := HTTPTransactionEgressSM.State.
Abbreviation IngressState := HTTPTransactionIngressSM.State.

Definition getID (t : HTTPTransaction) : StreamID := id_ t.

Definition getEgressState (t : HTTPTransaction) : EgressState := egressState_ t.

Definition getIngressState (t : HTTPTransaction) : IngressState :=
  ingressState_ t.

Definition isUpstream (t : HTTPTransaction) : bool :=
  bool_decide (direction_ t = UPSTREAM).

Definition isDownstream (t : HTTPTransaction) : bool :=
  bool_decide (direction_ t = DOWNSTREAM).

Definition extraResponseExpected (t : HTTPTransaction) : bool :=
  ((100 <=? lastResponseStatus_ t) && (lastResponseStatus_ t <? 200))
  && negb (lastResponseStatus_ t =? 101).

Definition isIngressStarted (t : HTTPTransaction) : bool :=
  negb (bool_decide (ingressState_ t = HTTPTransactionIngressSM.Start)).

Definition isIngressEOMQueued (t : HTTPTransaction) : bool :=
  bool_decide (ingressState_ t = HTTPTransactionIngressSM.EOMQueued).

Definition isIngressComplete (t : HTTPTransaction) : bool :=
  bool_decide (ingressState_ t = HTTPTransactionIngressSM.ReceivingDone).

Definition isIngressEOMSeen (t : HTTPTransaction) : bool :=
  isIngressEOMQueued t || isIngressComplete t.

Definition isEgressStarted (t : HTTPTransaction) : bool :=
  negb (bool_decide (egressState_ t = HTTPTransactionEgressSM.Start)).

Definition isEgressEOMQueued (t : HTTPTransaction) : bool :=
  bool_decide (egressState_ t = HTTPTransactionEgressSM.EOMQueued).

Definition isEgressComplete (t : HTTPTransaction) : bool :=
  bool_decide (egressState_ t = HTTPTransactionEgressSM.SendingDone).

Definition isRemoteInitiated (t : HTTPTransaction) : bool :=
  (bool_decide (direction_ t = DOWNSTREAM) && (id_ t mod 2 =? 1))
  || (bool_decide (direction_ t = UPSTREAM) && (id_ t mod 2 =? 0)).

Definition isEgressEOMSeen (t : HTTPTransaction) : bool :=
  isEgressEOMQueued t || isEgressComplete t.

Definition canSendHeaders (t : HTTPTransaction) : bool :=
  canTransit (egressState_ t) HTTPTransactionEgressSM.sendHeaders
  && (isUpstream t || (lastResponseStatus_ t =? 0) || extraResponseExpected t).

(** [CHECK(HTTPTransactionEgressSM::transit(egressState_, event))]: the
    transition is taken on [egressState_] itself, then its flag is
    checked. *)
Definition checkEgressTransit (event : HTTPTransactionEgressSM.Event)
    (t : HTTPTransaction) : outcome HTTPTransaction :=
  let '(state, ok) := transit (egressState_ t) event in
  CHECK ok orFatal "Check failed: HTTPTransactionEgressSM::transit" ;;
  Returns (set_egressState_ state t).

Definition sendChunkHeader (length : Z) (t : HTTPTransaction)
  : outcome HTTPTransaction :=
  t <- checkEgressTransit HTTPTransactionEgressSM.sendChunkHeader t ;;
  CHECK negb (partiallyReliable_ t)
    orFatal "sendChunkHeader: chunking not supported in partially reliable mode." ;;
  if negb (HTTPCodec.supportsParallelRequests (Transport.getCodec transport_))
  then Returns (set_chunkHeaders_ (chunkHeaders_ t ++ [newChunk length]) t)
  else Returns t.

Definition sendChunkTerminator (t : HTTPTransaction) : outcome HTTPTransaction :=
  t <- checkEgressTransit HTTPTransactionEgressSM.sendChunkTerminator t ;;
  CHECK negb (partiallyReliable_ t)
    orFatal "sendChunkTerminator: chunking not supported in partially reliable mode." ;;
  Returns t.

Definition sendTrailers (trailers : HTTPHeaders) (t : HTTPTransaction)
  : outcome HTTPTransaction :=
  t <- checkEgressTransit HTTPTransactionEgressSM.sendTrailers t ;;
  CHECK negb (partiallyReliable_ t)
    orFatal "sendTrailers: trailers are not supported in partially reliable mode." ;;
  Returns (set_trailers_ (Some trailers) t).

Definition isIngressPaused (t : HTTPTransaction) : bool := ingressPaused_ t.

Definition isEgressPaused (t : HTTPTransaction) : bool := handlerEgressPaused_ t.

Definition isFlowControlPaused (t : HTTPTransaction) : bool :=
  flowControlPaused_ t.

Definition supportsPushTransactions (t : HTTPTransaction) : bool :=
  bool_decide (direction_ t = DOWNSTREAM)
  && HTTPCodec.supportsPushTransactions (Transport.getCodec transport_).

(** Returns the new transaction (or [None] for [nullptr]) together with
    this transaction as the call leaves it. *)
Definition newPushedTransaction (handler : HandlerRef) (t : HTTPTransaction)
  : outcome (option HTTPTransaction * HTTPTransaction) :=
  CHECK negb (partiallyReliable_ t)
    orFatal "newPushedTransaction: push promises not supported in partially reliable mode." ;;
  if isEgressEOMSeen t then Returns (None, t)
  else
    let txn := Transport.newPushedTransaction transport_ (id_ t) handler in
    match txn with
    | Some pushed =>
        Returns (txn, set_pushedTransactions_
                        ({[ getID pushed ]} ∪ pushedTransactions_ t) t)
    | None => Returns (txn, t)
    end.

Definition newExTransaction (handler : HandlerRef) (unidirectional : bool)
    (t : HTTPTransaction) : option HTTPTransaction * HTTPTransaction :=
  let txn := Transport.newExTransaction transport_ handler (id_ t) unidirectional in
  match txn with
  | Some ex =>
      (txn, set_exTransactions_ ({[ getID ex ]} ∪ exTransactions_ t) t)
  | None => (txn, t)
  end.

Definition isPushed (t : HTTPTransaction) : bool :=
  bool_decide (is_Some (assocStreamId_ t)).

Definition isExTransaction (t : HTTPTransaction) : bool :=
  bool_decide (is_Some (exAttributes_ t)).

Definition isUnidirectional (t : HTTPTransaction) : bool :=
  match exAttributes_ t with
  | Some attributes => unidirectional attributes
  | None => false
  end.

Definition shouldNotifyExTxnError (errorDirection : Direction)
    (t : HTTPTransaction) : bool :=
  if isUnidirectional t then
    if isRemoteInitiated t
    then bool_decide (errorDirection = EGRESS)
    else bool_decide (errorDirection = INGRESS)
  else false.

Definition getAssocTxnId (t : HTTPTransaction) : option StreamID :=
  assocStreamId_ t.

Definition getPushedTransactions (t : HTTPTransaction) : gset StreamID :=
  pushedTransactions_ t.

Definition removePushedTransaction (pushStreamId : StreamID)
    (t : HTTPTransaction) : HTTPTransaction :=
  set_pushedTransactions_ (pushedTransactions_ t ∖ {[ pushStreamId ]}) t.

Definition removeExTransaction (exStreamId : StreamID)
    (t : HTTPTransaction) : HTTPTransaction :=
  set_exTransactions_ (exTransactions_ t ∖ {[ exStreamId ]}) t.

Definition incrementPendingByteEvents (t : HTTPTransaction)
  : outcome HTTPTransaction :=
  CHECK (pendingByteEvents_ t <? UINT8_MAX)
    orFatal "Check failed: pendingByteEvents_ < std::numeric_limits<uint8_t>::max()" ;;
  Returns (set_pendingByteEvents_ (wrap8 (pendingByteEvents_ t + 1)) t).

Definition decrementPendingByteEvents (t : HTTPTransaction)
  : outcome HTTPTransaction :=
  CHECK (pendingByteEvents_ t >? 0)
    orFatal "Check failed: pendingByteEvents_ > 0" ;;
  Returns (set_pendingByteEvents_ (wrap8 (pendingByteEvents_ t - 1)) t).

(** C++ leaves a division by zero undefined: the quotient of
    [getPrioritySummary] is computed through [divide], which has no
    result for a zero divisor. *)
Definition divide (x : float) (calls : Z) : outcome float :=
  if calls =? 0 then Fatal "division by zero"
  else Returns (PrimFloat.div x (double_of_uint64 calls)).

Definition getPrioritySummary (t : HTTPTransaction) : outcome (Z * Z * float) :=
  ratio <- (if egressCalls_ t >? 0
            then divide (cumulativeRatio_ t) (egressCalls_ t)
            else Returns PrimFloat.zero) ;;
  Returns (insertDepth_ t, currentDepth_ t, ratio).

Definition hasPendingBody (t : HTTPTransaction) : bool :=
  deferredEgressBody_ t >? 0.

Definition hasPendingEOM (t : HTTPTransaction) : bool :=
  (deferredEgressBody_ t =? 0) && isEgressEOMQueued t.

(** Modelled from the spec: the constructor, whose body is in
    HTTPTransaction.cpp (missing).  Members with a default initialiser in
    the header take it ([getNewInstance()] for the two states, zero for
    the counters, no partial reliability); the status flags start
    cleared and the queues empty (spec 3); an extended transaction that
    is unidirectional has the direction it will not use marked terminal
    (spec 4.6: remotely initiated, egress; locally initiated,
    ingress). *)
Definition newHTTPTransaction (direction : TransportDirection) (id : StreamID)
    (useFlowControl : bool) (sendInitialWindowSize : Z)
    (assocStreamId : option StreamID) (exAttributes : option ExAttributes)
  : HTTPTransaction :=
  let t :=
    {| deferredIngress_ := None; deferredEgressBody_ := 0;
       direction_ := direction; id_ := id;
       egressState_ := getNewInstance; ingressState_ := getNewInstance;
       sendWindow_ := sendInitialWindowSize;
       trailers_ := None; chunkHeaders_ := [];
       assocStreamId_ := assocStreamId; exAttributes_ := exAttributes;
       pushedTransactions_ := ∅; exTransactions_ := ∅;
       insertDepth_ := 0; currentDepth_ := 0;
       cumulativeRatio_ := PrimFloat.zero; egressCalls_ := 0;
       lastResponseStatus_ := 0; pendingByteEvents_ := 0;
       ingressPaused_ := false; egressPaused_ := false;
       flowControlPaused_ := false; handlerEgressPaused_ := false;
       useFlowControl_ := useFlowControl; aborted_ := false;
       partiallyReliable_ := false |} in
  if isUnidirectional t then
    if isRemoteInitiated t
    then set_egressState_ HTTPTransactionEgressSM.SendingDone t
    else set_ingressState_ HTTPTransactionIngressSM.ReceivingDone t
  else t.

(** Executions of the two byte-event counters, in program order; the run
    stops at the first failed CHECK. *)
Inductive ByteEventCall : Type :=
| IncrementPendingByteEvents
| DecrementPendingByteEvents.

Definition byteEventCall (c : ByteEventCall) (t : HTTPTransaction)
  : outcome HTTPTransaction :=
  match c with
  | IncrementPendingByteEvents => incrementPendingByteEvents t
  | DecrementPendingByteEvents => decrementPendingByteEvents t
  end.

Fixpoint byteEventCalls (cs : list ByteEventCall) (t : HTTPTransaction)
  : outcome HTTPTransaction :=
  match cs with
  | [] => Returns t
  | c :: rest => t <- byteEventCall c t ;; byteEventCalls rest t
  end.

End Methods.


(** ** What the handler and the transport observe *)

(** The callbacks of [HTTPTransactionHandler] that the transaction makes;
    [onError] carries the direction and the codec status code of its
    [HTTPException]. *)
Module Handler.
Inductive Callback : Type :=
| onHeadersComplete
| onBody (len : Z)
| onChunkHeader (len : Z)
| onChunkComplete
| onTrailers
| onEOM
| onUpgrade
| onError (direction : Direction) (code : ErrorCode)
| onEgressPaused
| onEgressResumed
| onUnframedBodyStarted (offset : Z).

#[global] Instance Callback_eq_dec : EqDecision Callback.
Proof. solve_decision. Defined.
End Handler.

(** The calls that the transaction makes on its [Transport]. *)
Module TransportCall.
Inductive t : Type :=
| pauseIngress
| resumeIngress
| sendBody (len : Z) (eom : bool)
| sendAbort (statusCode : ErrorCode).
End TransportCall.

(** A transaction together with the calls it has made so far, oldest
    first. *)
Record World : Type := mkWorld {
  txn : HTTPTransaction;
  handlerCalls : list Handler.Callback;
  transportCalls : list TransportCall.t
}.

Definition newWorld (t : HTTPTransaction) : World := mkWorld t [] [].

Definition onTxn (f : HTTPTransaction -> HTTPTransaction) (w : World) : World :=
  mkWorld (f (txn w)) (handlerCalls w) (transportCalls w).

Definition callHandler (callback : Handler.Callback) (w : World) : World :=
  mkWorld (txn w) (handlerCalls w ++ [callback]) (transportCalls w).

Definition callTransport (call : TransportCall.t) (w : World) : World :=
  mkWorld (txn w) (handlerCalls w) (transportCalls w ++ [call]).

(** ** The methods defined in HTTPTransaction.cpp *)

Section Transaction.
Import StateMachine.

Context {egressSM : SMData HTTPTransactionEgressSM.State
                           HTTPTransactionEgressSM.Event}.

(** [static uint64_t egressBufferLimit_]. *)
Context (egressBufferLimit_ : Z).

(** The handler is application code.  What the transaction can see of it
    is whether it calls [pauseIngress()] from inside an ingress callback;
    the handler decides from the callbacks it has received, the current one
    included. *)
Context (handlerPauses : list Handler.Callback -> bool).

(** [onIngressUnframedBodyStarted], inline in the header: the session has
    met the start of the unframed body, and the transaction is partially
    reliable from here on. *)
Definition onIngressUnframedBodyStarted (offset : Z) (w : World) : World :=
  callHandler (Handler.onUnframedBodyStarted offset)
    (onTxn (set_partiallyReliable_ true) w).

(** Modelled from the spec: [validateIngressStateTransition], declared in
    the header and defined in HTTPTransaction.cpp (missing).  Header: it
    "returns false and sends an abort with PROTOCOL_ERROR if the transition
    fails.  Otherwise it returns true."  Spec 4.1, failure semantics: the
    transaction goes to the aborted sub-state, the handler gets a
    protocol-level error (INGRESS for an ingress event), an abort is sent,
    and both state machines stay pinned to their current state. *)
Definition validateIngressStateTransition
    (event : HTTPTransactionIngressSM.Event) (w : World) : World * bool :=
  let '(state, ok) := transit (ingressState_ (txn w)) event in
  let w := onTxn (set_ingressState_ state) w in
  if ok then (w, true)
  else
    let w := onTxn (set_aborted_ true) w in
    let w := callHandler (Handler.onError INGRESS PROTOCOL_ERROR) w in
    let w := callTransport (TransportCall.sendAbort PROTOCOL_ERROR) w in
    (w, false).

(** The ingress state after the session has submitted a sequence of events
    to [validateIngressStateTransition]. *)
Definition validateAll (events : list HTTPTransactionIngressSM.Event)
    (w : World) : World :=
  fold_left (fun w event => fst (validateIngressStateTransition event w))
            events w.

(** *** Egress: when the handler is told to pause *)

(** Modelled from the spec: [updateHandlerPauseState] (HTTPTransaction.cpp,
    missing).  Spec 4.6: egress pause is induced by (i) the transport
    signalling remote back-pressure, (ii) deferred_egress.len >=
    egress_buffer_limit, or (iii) the send window being empty; "the
    transaction computes an effective handler-should-pause bit from these;
    on transitions it calls onEgressPaused() / onEgressResumed()". *)
Definition updateHandlerPauseState (w : World) : World :=
  let t := txn w in
  let flowControlPaused := useFlowControl_ t && (sendWindow_ t <=? 0) in
  let bufferFull := egressBufferLimit_ <=? deferredEgressBody_ t in
  let handlerShouldBePaused :=
    egressPaused_ t || bufferFull || flowControlPaused in
  let w := onTxn (set_flowControlPaused_ flowControlPaused) w in
  if Bool.eqb handlerShouldBePaused (handlerEgressPaused_ t) then w
  else if handlerShouldBePaused
  then callHandler Handler.onEgressPaused
         (onTxn (set_handlerEgressPaused_ true) w)
  else callHandler Handler.onEgressResumed
         (onTxn (set_handlerEgressPaused_ false) w).

(** Modelled from the spec: [pauseEgress] (HTTPTransaction.cpp, missing),
    the transport signalling remote back-pressure (i); the handler is told
    "if there is a state change as a result of this call" (header). *)
Definition pauseEgress (w : World) : World :=
  updateHandlerPauseState (onTxn (set_egressPaused_ true) w).

(** Modelled from the spec: [resumeEgress] (HTTPTransaction.cpp, missing),
    the back-pressure lifted; the handler is not told while the send window
    or the buffer still holds it back (header). *)
Definition resumeEgress (w : World) : World :=
  updateHandlerPauseState (onTxn (set_egressPaused_ false) w).

(** Modelled from the spec: [sendBody] (spec 4.6, egress path): the state
    machine transition is validated, the bytes are appended to the deferred
    egress and nothing is written synchronously. *)
Definition sendBody (len : Z) (w : World) : outcome World :=
  let '(state, ok) :=
    transit (egressState_ (txn w)) HTTPTransactionEgressSM.sendBody in
  CHECK ok orFatal "Check failed: HTTPTransactionEgressSM::transit" ;;
  let w := onTxn (set_egressState_ state) w in
  let w := onTxn (fun t => set_deferredEgressBody_ (deferredEgressBody_ t + len) t) w in
  Returns (updateHandlerPauseState w).

(** Modelled from the spec: [onWriteReady] (spec 4.6, flush).  Nothing is
    sent while egress is paused; otherwise to_send is the least of
    max_bytes, the deferred length and (under flow control) the send
    window; the end of message goes with the body iff to_send is all that
    is deferred and the EOM is queued; the deferred buffer is trimmed, the
    send window debited and the priority accounting updated
    (cumulative_ratio += weight_ratio, egress_calls += 1).  The pacing of
    spec 4.5 is outside this model: the rate limiter never withholds. *)
Definition onWriteReady (maxEgress : Z) (ratio : float) (w : World) : World :=
  let t := txn w in
  if egressPaused_ t then w
  else
    let canSend :=
      if useFlowControl_ t then Z.min maxEgress (Z.max 0 (sendWindow_ t))
      else maxEgress in
    let toSend := Z.min canSend (deferredEgressBody_ t) in
    let eom := (toSend =? deferredEgressBody_ t) && isEgressEOMQueued t in
    let w := callTransport (TransportCall.sendBody toSend eom) w in
    let w := onTxn (set_deferredEgressBody_ (deferredEgressBody_ t - toSend)) w in
    let w :=
      if useFlowControl_ t
      then onTxn (set_sendWindow_ (sendWindow_ t - toSend)) w else w in
    let w :=
      if eom
      then onTxn (set_egressState_
                    (fst (transit (egressState_ t)
                            HTTPTransactionEgressSM.eomFlushed))) w
      else w in
    let w :=
      onTxn (set_cumulativeRatio_ (PrimFloat.add (cumulativeRatio_ t) ratio)) w in
    let w := onTxn (set_egressCalls_ (wrap64 (egressCalls_ t + 1))) w in
    updateHandlerPauseState w.

(** Modelled from the spec: [onIngressWindowUpdate], the peer releasing
    [amount] bytes of send window. *)
Definition onIngressWindowUpdate (amount : Z) (w : World) : World :=
  updateHandlerPauseState
    (onTxn (fun t => set_sendWindow_ (sendWindow_ t + amount) t) w).

(** The calls that reach the egress side of a transaction. *)
Inductive EgressCall : Type :=
| PauseEgress
| ResumeEgress
| SendBody (len : Z)
| OnWriteReady (maxEgress : Z) (ratio : float)
| OnIngressWindowUpdate (amount : Z).

Definition egressCall (c : EgressCall) (w : World) : outcome World :=
  match c with
  | PauseEgress => Returns (pauseEgress w)
  | ResumeEgress => Returns (resumeEgress w)
  | SendBody len => sendBody len w
  | OnWriteReady maxEgress ratio => Returns (onWriteReady maxEgress ratio w)
  | OnIngressWindowUpdate amount => Returns (onIngressWindowUpdate amount w)
  end.

(** An execution: the calls in program order.  A failed CHECK ends the
    process, so the world stays as the failing call found it. *)
Fixpoint egressCalls (cs : list EgressCall) (w : World) : World :=
  match cs with
  | [] => w
  | c :: rest =>
      match egressCall c w with
      | Returns w' => egressCalls rest w'
      | Fatal _ => w
      end
  end.

(** The pause/resume notifications among the handler's callbacks. *)
Definition isPauseNotification (callback : Handler.Callback) : bool :=
  match callback with
  | Handler.onEgressPaused | Handler.onEgressResumed => true
  | _ => false
  end.

Definition pauseNotifications (w : World) : list Handler.Callback :=
  List.filter isPauseNotification (handlerCalls w).

(** A sequence that strictly alternates, beginning with [first]. *)
Fixpoint alternates (first second : Handler.Callback)
    (l : list Handler.Callback) : Prop :=
  match l with
  | [] => True
  | callback :: rest => callback = first /\ alternates second first rest
  end.

Definition count (callback : Handler.Callback) (l : list Handler.Callback) : Z :=
  Z.of_nat (List.length (List.filter (fun c => bool_decide (c = callback)) l)).

(** What the handler has been told agrees with [handlerEgressPaused_]: the
    notifications alternate from onEgressPaused on, and the handler is
    paused exactly when their number is odd. *)
Definition notifiedInStep (w : World) : Prop :=
  alternates Handler.onEgressPaused Handler.onEgressResumed
    (pauseNotifications w)
  /\ handlerEgressPaused_ (txn w)
     = negb (Nat.even (List.length (pauseNotifications w))).

(** Two worlds that the handler cannot tell apart, as far as pausing
    goes. *)
Definition sameNotifications (w w' : World) : Prop :=
  handlerCalls w' = handlerCalls w
  /\ handlerEgressPaused_ (txn w') = handlerEgressPaused_ (txn w).

(** *** Ingress: pausing and resuming *)

Definition ingressEventOf (ev : HTTPEvent) : HTTPTransactionIngressSM.Event :=
  match ev with
  | HEADERS_COMPLETE => HTTPTransactionIngressSM.onHeaders
  | BODY _ => HTTPTransactionIngressSM.onBody
  | CHUNK_HEADER _ => HTTPTransactionIngressSM.onChunkHeader
  | CHUNK_COMPLETE => HTTPTransactionIngressSM.onChunkComplete
  | TRAILERS_COMPLETE => HTTPTransactionIngressSM.onTrailers
  | UPGRADE => HTTPTransactionIngressSM.onUpgrade
  | MESSAGE_COMPLETE => HTTPTransactionIngressSM.onEOM
  end.

Definition callbackOf (ev : HTTPEvent) : Handler.Callback :=
  match ev with
  | HEADERS_COMPLETE => Handler.onHeadersComplete
  | BODY len => Handler.onBody len
  | CHUNK_HEADER len => Handler.onChunkHeader len
  | CHUNK_COMPLETE => Handler.onChunkComplete
  | TRAILERS_COMPLETE => Handler.onTrailers
  | UPGRADE => Handler.onUpgrade
  | MESSAGE_COMPLETE => Handler.onEOM
  end.

(** The events waiting in [deferredIngress_]; a null queue holds none. *)
Definition deferredEvents (t : HTTPTransaction) : list HTTPEvent :=
  match deferredIngress_ t with
  | Some queue => queue
  | None => []
  end.

(** Modelled from the spec: [mustQueueIngress] (declared in the header).
    Spec 4.6 (c): an event is queued "if ingress_paused or if a predecessor
    event is still queued". *)
Definition mustQueueIngress (t : HTTPTransaction) : bool :=
  ingressPaused_ t || negb (bool_decide (deferredEvents t = [])).

(** Modelled from the spec: [checkCreateDeferredIngress] (declared in the
    header): the queue is created lazily, on the first buffered event. *)
Definition checkCreateDeferredIngress (t : HTTPTransaction) : HTTPTransaction :=
  match deferredIngress_ t with
  | Some _ => t
  | None => set_deferredIngress_ (Some []) t
  end.

(** Modelled from the spec: [pauseIngress] (spec 4.6): "it sets
    ingress_paused, calls transport pause_ingress(self), and begins
    queueing incoming events". *)
Definition pauseIngress (w : World) : World :=
  callTransport TransportCall.pauseIngress (onTxn (set_ingressPaused_ true) w).

(** Modelled from the spec: the [processIngress...] methods (declared in
    the header): the handler's matching callback is invoked; once the EOM
    has reached the handler the ingress machine moves to ReceivingDone
    through [eomFlushed].  The handler may pause ingress from inside the
    callback. *)
Definition processIngress (ev : HTTPEvent) (w : World) : World :=
  let w := callHandler (callbackOf ev) w in
  let w :=
    match ev with
    | MESSAGE_COMPLETE =>
        onTxn (fun t =>
                 set_ingressState_
                   (fst (transit (ingressState_ t)
                           HTTPTransactionIngressSM.eomFlushed)) t) w
    | _ => w
    end in
  if handlerPauses (handlerCalls w) then pauseIngress w else w.

(** Modelled from the spec: the [onIngress...] entry points (spec 4.6,
    ingress path): (a) validate the transition, (c) enqueue if ingress must
    be queued, (d) otherwise dispatch to the handler; after an error no
    further event is accepted. *)
Definition onIngress (ev : HTTPEvent) (w : World) : World :=
  if aborted_ (txn w) then w
  else
    let '(w, ok) := validateIngressStateTransition (ingressEventOf ev) w in
    if negb ok then w
    else if mustQueueIngress (txn w)
    then onTxn (fun t =>
                  let t := checkCreateDeferredIngress t in
                  set_deferredIngress_ (Some (deferredEvents t ++ [ev])) t) w
    else processIngress ev w.

(** Modelled from the spec: the drain loop of [resumeIngress] (spec 4.3):
    while ingress is not paused, the event at the head of the queue is
    popped and dispatched. *)
Fixpoint drainDeferredIngress (queue : list HTTPEvent) (w : World) : World :=
  match queue with
  | [] => w
  | ev :: rest =>
      if ingressPaused_ (txn w) then w
      else drainDeferredIngress rest
             (processIngress ev (onTxn (set_deferredIngress_ (Some rest)) w))
  end.

(** Modelled from the spec: [resumeIngress] (spec 4.3): ingress is
    unpaused, the transport is told, and the deferred events "are drained
    in FIFO order", the handler being free to pause again mid-drain. *)
Definition resumeIngress (w : World) : World :=
  let w :=
    callTransport TransportCall.resumeIngress
      (onTxn (set_ingressPaused_ false) w) in
  drainDeferredIngress (deferredEvents (txn w)) w.

(** The calls that reach the ingress side of a transaction. *)
Inductive IngressCall : Type :=
| OnIngress (ev : HTTPEvent)
| PauseIngress
| ResumeIngress.

Definition ingressCall (c : IngressCall) (w : World) : World :=
  match c with
  | OnIngress ev => onIngress ev w
  | PauseIngress => pauseIngress w
  | ResumeIngress => resumeIngress w
  end.

Definition ingressCalls (cs : list IngressCall) (w : World) : World :=
  fold_left (fun w c => ingressCall c w) cs w.

(** [pauseIngress()] immediately followed by [resumeIngress()]. *)
Definition pauseThenResume (w : World) : World :=
  resumeIngress (pauseIngress w).

(** Outside a pause nothing waits in the deferred queue. *)
Definition nothingDeferredUnlessPaused (w : World) : Prop :=
  ingressPaused_ (txn w) = false -> deferredEvents (txn w) = [].

(** *** The response status *)

(** A status is interim when it is a 1xx other than 101. *)
Definition interimStatus (status : Z) : bool :=
  ((100 <=? status) && (status <? 200)) && negb (status =? 101).

(** Modelled from the spec: the recording of a response status, done by
    [sendHeaders] (downstream) and [onIngressHeadersComplete] (upstream) in
    HTTPTransaction.cpp (missing).  The header documents the member: "this
    field indicates the last status we've sent", or received; "this could
    take on multiple 1xx values, and then take on 200". *)
Definition recordResponseStatus (status : Z) (t : HTTPTransaction)
  : HTTPTransaction :=
  set_lastResponseStatus_ status t.

Definition recordResponseStatuses (statuses : list Z) (t : HTTPTransaction)
  : HTTPTransaction :=
  fold_left (fun t status => recordResponseStatus status t) statuses t.

(** [canSendHeaders] in the words of the specification, which speak of
    every status recorded so far. *)
Definition canSendHeaders_specified (recorded : list Z) (t : HTTPTransaction)
  : bool :=
  canTransit (egressState_ t) HTTPTransactionEgressSM.sendHeaders
  && (isUpstream t || (lastResponseStatus_ t =? 0)
      || forallb interimStatus recorded).

End Transaction.

(** ** Worked examples *)

Module Examples.
Import StateMachine.

(** The egress table of the examples. *)
#[local] Existing Instance HTTPTransactionEgressSM.specData.

(** A request on stream 1 of a server-side session, and one on stream 1 of
    a client-side session. *)
Definition downstreamTxn : HTTPTransaction :=
  newHTTPTransaction DOWNSTREAM 1 false 0 None None.

Definition upstreamTxn : HTTPTransaction :=
  newHTTPTransaction UPSTREAM 1 false 0 None None.

(** A transport over a multiplexing codec that opens stream 2 for every
    push it is asked for. *)
Definition pushingTransport : Transport.t :=
  Transport.mk (HTTPCodec.mk true true)
    (fun assocStreamId _ =>
       Some (newHTTPTransaction DOWNSTREAM 2 false 0 (Some assocStreamId) None))
    (fun _ _ _ => None).

(** A handler that never pauses ingress from inside a callback. *)
Definition quietHandler : list Handler.Callback -> bool := fun _ => false.

(** Headers, then a pause, then a body that has to wait. *)
Definition pausedWithBody : World :=
  ingressCalls quietHandler
    [OnIngress HEADERS_COMPLETE; PauseIngress; OnIngress (BODY 5)]
    (newWorld downstreamTxn).

(** A transaction that has flushed twice, with weight ratios 0.5 and 1. *)
Definition flushedTwice : World :=
  egressCalls 65536
    [OnWriteReady 100 0.5%float; OnWriteReady 100 1%float]
    (newWorld downstreamTxn).

End Examples.

(** ** Further members and methods of HTTPTransaction *)

(** The bit-fields of the class behind the first-byte and delivery
    bookkeeping; no method above reads or writes them. *)
Record TransactionFlags : Type := mkTransactionFlags {
  firstByteSent_ : bool;
  firstHeaderByteSent_ : bool;
  inActiveSet_ : bool;
  enableLastByteFlushedTracking_ : bool;
  enableBodyLastByteDeliveryTracking_ : bool
}.

(** [folly::Expected<T, ErrorCode>]. *)
Inductive Expected (A : Type) : Type :=
| Value (a : A)
| Unexpected (code : ErrorCode).
Arguments Value {A} a.
Arguments Unexpected {A} code.

Definition testAndSetFirstByteSent (f : TransactionFlags)
  : bool * TransactionFlags :=
  let ret := firstByteSent_ f in
  (ret,
   {| firstByteSent_ := true;
      firstHeaderByteSent_ := firstHeaderByteSent_ f;
      inActiveSet_ := inActiveSet_ f;
      enableLastByteFlushedTracking_ := enableLastByteFlushedTracking_ f;
      enableBodyLastByteDeliveryTracking_ :=
        enableBodyLastByteDeliveryTracking_ f |}).

Definition testAndClearActive (f : TransactionFlags)
  : bool * TransactionFlags :=
  let ret := inActiveSet_ f in
  (ret,
   {| firstByteSent_ := firstByteSent_ f;
      firstHeaderByteSent_ := firstHeaderByteSent_ f;
      inActiveSet_ := false;
      enableLastByteFlushedTracking_ := enableLastByteFlushedTracking_ f;
      enableBodyLastByteDeliveryTracking_ :=
        enableBodyLastByteDeliveryTracking_ f |}).

Definition testAndSetFirstHeaderByteSent (f : TransactionFlags)
  : bool * TransactionFlags :=
  let ret := firstHeaderByteSent_ f in
  (ret,
   {| firstByteSent_ := firstByteSent_ f;
      firstHeaderByteSent_ := true;
      inActiveSet_ := inActiveSet_ f;
      enableLastByteFlushedTracking_ := enableLastByteFlushedTracking_ f;
      enableBodyLastByteDeliveryTracking_ :=
        enableBodyLastByteDeliveryTracking_ f |}).

Definition setLastByteFlushedTrackingEnabled (enabled : bool)
    (f : TransactionFlags) : TransactionFlags :=
  {| firstByteSent_ := firstByteSent_ f;
     firstHeaderByteSent_ := firstHeaderByteSent_ f;
     inActiveSet_ := inActiveSet_ f;
     enableLastByteFlushedTracking_ := enabled;
     enableBodyLastByteDeliveryTracking_ :=
       enableBodyLastByteDeliveryTracking_ f |}.

(** The method reads [partiallyReliable_] of the transaction and writes
    one of the flags. *)
Definition setBodyLastByteDeliveryTrackingEnabled (enabled : bool)
    (t : HTTPTransaction) (f : TransactionFlags)
  : Expected unit * TransactionFlags :=
  if negb (partiallyReliable_ t) then (Unexpected PROTOCOL_ERROR, f)
  else
    (Value tt,
     {| firstByteSent_ := firstByteSent_ f;
        firstHeaderByteSent_ := firstHeaderByteSent_ f;
        inActiveSet_ := inActiveSet_ f;
        enableLastByteFlushedTracking_ := enableLastByteFlushedTracking_ f;
        enableBodyLastByteDeliveryTracking_ := enabled |}).

(** The three test-and-modify calls, and a run of them that collects what
    each call returned. *)
Inductive FlagCall : Type :=
| TestAndSetFirstByteSent
| TestAndClearActive
| TestAndSetFirstHeaderByteSent.

Definition flagCall (c : FlagCall) (f : TransactionFlags)
  : bool * TransactionFlags :=
  match c with
  | TestAndSetFirstByteSent => testAndSetFirstByteSent f
  | TestAndClearActive => testAndClearActive f
  | TestAndSetFirstHeaderByteSent => testAndSetFirstHeaderByteSent f
  end.

Fixpoint flagCalls (cs : list FlagCall) (f : TransactionFlags)
  : list bool * TransactionFlags :=
  match cs with
  | [] => ([], f)
  | c :: rest =>
      let '(ret, f) := flagCall c f in
      let '(rets, f) := flagCalls rest f in
      (ret :: rets, f)
  end.

(** [getControlStream]: [HTTPCodec::NoStream] is the empty optional. *)
Definition getControlStream (t : HTTPTransaction) : option StreamID :=
  match exAttributes_ t with
  | Some attributes => Some (controlStream attributes)
  | None => None
  end.

Definition getExTransactions (t : HTTPTransaction) : gset StreamID :=
  exTransactions_ t.

(** How many calls of each kind a run of byte-event calls holds. *)
Definition increments (cs : list ByteEventCall) : Z :=
  Z.of_nat (List.length
              (List.filter
                 (fun c => match c with
                           | IncrementPendingByteEvents => true
                           | DecrementPendingByteEvents => false
                           end) cs)).

Definition decrements (cs : list ByteEventCall) : Z :=
  Z.of_nat (List.length
              (List.filter
                 (fun c => match c with
                           | IncrementPendingByteEvents => false
                           | DecrementPendingByteEvents => true
                           end) cs)).

(** ** HQUnidirectionalCodec.cpp: printing stream types and directions *)

Module hq.

(** Modelled from the spec: [UnidirectionalStreamType] and
    [StreamDirection] of HQUnidirectionalCodec.h, which is missing and of
    which the spec says nothing.  The enumerators are the ones that the two
    switches name; [Unlisted...] stands for every other value of the
    underlying type, which the switches send to [default]. *)
Inductive UnidirectionalStreamType : Type :=
| H1Q_CONTROL
| CONTROL
| QPACK_ENCODER
| QPACK_DECODER
| PUSH
| UnlistedType (value : Z).

Inductive StreamDirection : Type :=
| INGRESS
| EGRESS
| UnlistedDirection (value : Z).

(** A [std::ostream] as the characters written to it so far; [os << text]
    appends. *)
Definition ostream : Type := string.

Definition typeName (type : UnidirectionalStreamType) : string :=
  match type with
  | H1Q_CONTROL | CONTROL => "control"
  | QPACK_ENCODER => "QPACK encoder"
  | QPACK_DECODER => "QPACK decoder"
  | PUSH => "push"
  | UnlistedType _ => "unknown"
  end.

(** [operator<<(std::ostream&, UnidirectionalStreamType)]. *)
Definition printStreamType (os : ostream) (type : UnidirectionalStreamType)
  : ostream :=
  match type with
  | H1Q_CONTROL | CONTROL => String.append os "control"
  | QPACK_ENCODER => String.append os "QPACK encoder"
  | QPACK_DECODER => String.append os "QPACK decoder"
  | PUSH => String.append os "push"
  | UnlistedType _ => String.append os "unknown"
  end.

(** [operator<<(std::ostream&, StreamDirection)]. *)
Definition printStreamDirection (os : ostream) (direction : StreamDirection)
  : ostream :=
  match direction with
  | INGRESS => String.append os "ingress"
  | EGRESS => String.append os "egress"
  | UnlistedDirection _ => String.append os "unknown"
  end.

(** The two control stream types. *)
Definition isControl (type : UnidirectionalStreamType) : bool :=
  match type with
  | H1Q_CONTROL | CONTROL => true
  | _ => false
  end.

Definition isUnlisted (type : UnidirectionalStreamType) : bool :=
  match type with
  | UnlistedType _ => true
  | _ => false
  end.

End hq.

(** ** ThreadLocalHTTPSessionStats.cpp *)

Module TLHTTPSessionStats.

(** The members of the class: one counter ([txnsOpen]), the time series
    and the two histograms.  The members of one kind are told apart by an
    enumerator that carries the member's name. *)
Inductive Timeseries : Type :=
| txnsOpened
| txnsFromSessionReuse
| txnsTransactionStalled
| txnsSessionStalled
| presendIoSplit
| presendExceedLimit
| ttlbaTracked
| ttlbaReceived
| ttlbaTimeout
| ttlbaNotFound
| ttlbaExceedLimit
| ttbtxTracked
| ttbtxReceived
| ttbtxTimeout
| ttbtxNotFound
| ttbtxExceedLimit.

Inductive Histogram : Type :=
| txnsPerSession
| sessionIdleTime.

#[global] Instance Timeseries_eq_dec : EqDecision Timeseries.
Proof. solve_decision. Defined.
#[global] Instance Histogram_eq_dec : EqDecision Histogram.
Proof. solve_decision. Defined.

(** The stat classes are those of fb303: a counter holds a value that
    [incrementValue] moves, a time series exported as a SUM holds the sum of
    what was added to it, a histogram holds its samples. *)
Record t : Type := mk {
  prefix : string;
  txnsOpen : Z;
  timeseries : Timeseries -> Z;
  histograms : Histogram -> list Z
}.

(** What the constructor appends to the prefix for each member. *)
Definition counterSuffix : string := "_transactions_open".

Definition timeseriesSuffix (series : Timeseries) : string :=
  match series with
  | txnsOpened => "_txn_opened"
  | txnsFromSessionReuse => "_txn_session_reuse"
  | txnsTransactionStalled => "_txn_transaction_stall"
  | txnsSessionStalled => "_txn_session_stall"
  | presendIoSplit => "_presend_io_split"
  | presendExceedLimit => "_presend_exceed_limit"
  | ttlbaTracked => "_ttlba_tracked"
  | ttlbaReceived => "_ttlba_received"
  | ttlbaTimeout => "_ttlba_timeout"
  | ttlbaNotFound => "_ttlba_not_found"
  | ttlbaExceedLimit => "_ttlba_exceed_limit"
  | ttbtxTracked => "_ttbtx_tracked"
  | ttbtxReceived => "_ttbtx_received"
  | ttbtxTimeout => "_ttbtx_timeout"
  | ttbtxNotFound => "_ttbtx_not_found"
  | ttbtxExceedLimit => "_ttbtx_exceed_limit"
  end.

Definition histogramSuffix (histogram : Histogram) : string :=
  match histogram with
  | txnsPerSession => "_txn_per_session"
  | sessionIdleTime => "_session_idle_time"
  end.

Definition allTimeseries : list Timeseries :=
  [ txnsOpened; txnsFromSessionReuse; txnsTransactionStalled;
    txnsSessionStalled; presendIoSplit; presendExceedLimit; ttlbaTracked;
    ttlbaReceived; ttlbaTimeout; ttlbaNotFound; ttlbaExceedLimit;
    ttbtxTracked; ttbtxReceived; ttbtxTimeout; ttbtxNotFound;
    ttbtxExceedLimit ].

Definition suffixes : list string :=
  counterSuffix
  :: List.map timeseriesSuffix allTimeseries
  ++ List.map histogramSuffix [txnsPerSession; sessionIdleTime].

(** The names under which the constructor registers the members. *)
Definition names (s : t) : list string :=
  List.map (String.append (prefix s)) suffixes.

(** The constructor: every member starts empty under its name. *)
Definition new (prefix : string) : t :=
  mk prefix 0 (fun _ => 0) (fun _ => []).

(** [TLCounter::incrementValue], [TLTimeseries::add] and
    [TLHistogram::add] on one member. *)
Definition incrementValue (amount : Z) (s : t) : t :=
  mk (prefix s) (txnsOpen s + amount) (timeseries s) (histograms s).

Definition add (series : Timeseries) (value : Z) (s : t) : t :=
  mk (prefix s) (txnsOpen s)
     (fun other =>
        if decide (other = series) then timeseries s other + value
        else timeseries s other)
     (histograms s).

Definition addSample (histogram : Histogram) (value : Z) (s : t) : t :=
  mk (prefix s) (txnsOpen s) (timeseries s)
     (fun other =>
        if decide (other = histogram) then histograms s other ++ [value]
        else histograms s other).

Definition recordTransactionOpened (s : t) : t :=
  add txnsOpened 1 (incrementValue 1 s).

Definition recordTransactionClosed (s : t) : t := incrementValue (-1) s.

Definition recordSessionReused (s : t) : t := add txnsFromSessionReuse 1 s.

Definition recordPresendIOSplit (s : t) : t := add presendIoSplit 1 s.

Definition recordPresendExceedLimit (s : t) : t := add presendExceedLimit 1 s.

Definition recordTTLBAExceedLimit (s : t) : t := add ttlbaExceedLimit 1 s.

Definition recordTTLBANotFound (s : t) : t := add ttlbaNotFound 1 s.

Definition recordTTLBAReceived (s : t) : t := add ttlbaReceived 1 s.

Definition recordTTLBATimeout (s : t) : t := add ttlbaTimeout 1 s.

Definition recordTTLBATracked (s : t) : t := add ttlbaTracked 1 s.

Definition recordTTBTXExceedLimit (s : t) : t := add ttbtxExceedLimit 1 s.

Definition recordTTBTXReceived (s : t) : t := add ttbtxReceived 1 s.

Definition recordTTBTXTimeout (s : t) : t := add ttbtxTimeout 1 s.

Definition recordTTBTXNotFound (s : t) : t := add ttbtxNotFound 1 s.

Definition recordTTBTXTracked (s : t) : t := add ttbtxTracked 1 s.

Definition recordTransactionsServed (num : Z) (s : t) : t :=
  addSample txnsPerSession num s.

Definition recordSessionIdleTime (idleTime : Z) (s : t) : t :=
  addSample sessionIdleTime idleTime s.

Definition recordTransactionStalled (s : t) : t :=
  add txnsTransactionStalled 1 s.

Definition recordSessionStalled (s : t) : t := add txnsSessionStalled 1 s.

(** The calls of the [HTTPSessionStats] interface, and a run of them. *)
Inductive Call : Type :=
| TransactionOpened
| TransactionClosed
| SessionReused
| PresendIOSplit
| PresendExceedLimit
| TTLBAExceedLimit
| TTLBANotFound
| TTLBAReceived
| TTLBATimeout
| TTLBATracked
| TTBTXExceedLimit
| TTBTXReceived
| TTBTXTimeout
| TTBTXNotFound
| TTBTXTracked
| TransactionsServed (num : Z)
| SessionIdleTime (idleTime : Z)
| TransactionStalled
| SessionStalled.

Definition record (c : Call) (s : t) : t :=
  match c with
  | TransactionOpened => recordTransactionOpened s
  | TransactionClosed => recordTransactionClosed s
  | SessionReused => recordSessionReused s
  | PresendIOSplit => recordPresendIOSplit s
  | PresendExceedLimit => recordPresendExceedLimit s
  | TTLBAExceedLimit => recordTTLBAExceedLimit s
  | TTLBANotFound => recordTTLBANotFound s
  | TTLBAReceived => recordTTLBAReceived s
  | TTLBATimeout => recordTTLBATimeout s
  | TTLBATracked => recordTTLBATracked s
  | TTBTXExceedLimit => recordTTBTXExceedLimit s
  | TTBTXReceived => recordTTBTXReceived s
  | TTBTXTimeout => recordTTBTXTimeout s
  | TTBTXNotFound => recordTTBTXNotFound s
  | TTBTXTracked => recordTTBTXTracked s
  | TransactionsServed num => recordTransactionsServed num s
  | SessionIdleTime idleTime => recordSessionIdleTime idleTime s
  | TransactionStalled => recordTransactionStalled s
  | SessionStalled => recordSessionStalled s
  end.

Definition recordAll (cs : list Call) (s : t) : t :=
  fold_left (fun s c => record c s) cs s.

Definition opened (cs : list Call) : Z :=
  Z.of_nat (List.length
              (List.filter
                 (fun c => match c with TransactionOpened => true | _ => false end)
                 cs)).

Definition closed (cs : list Call) : Z :=
  Z.of_nat (List.length
              (List.filter
                 (fun c => match c with TransactionClosed => true | _ => false end)
                 cs)).

(** The samples that a run hands to each histogram, in call order. *)
Definition servedSamples (cs : list Call) : list Z :=
  flat_map (fun c => match c with TransactionsServed num => [num] | _ => [] end)
           cs.

Definition idleSamples (cs : list Call) : list Z :=
  flat_map (fun c => match c with SessionIdleTime idleTime => [idleTime] | _ => [] end)
           cs.

End TLHTTPSessionStats.

(** ** The sample HQ server: Dispatcher::getRequestHandler *)

Module Dispatcher.

(** The handler classes of SampleHandlers.h that the dispatcher
    instantiates; every one is given the same parameters, and the health
    check handler a flag besides. *)
Inductive RequestHandler : Type :=
| EchoHandler
| ContinueHandler
| RandBytesGenHandler
| HealthCheckHandler (healthy : bool)
| WaitReleaseHandler
| PrCatHandler
| ServerPushHandler
| PrSkipHandler
| PrRejectHandler
| DummyHandler.

(** [std::isdigit] on a character of the path. *)
Definition isdigit (c : Ascii.ascii) : bool :=
  let n := Ascii.N_of_ascii c in
  ((48 <=? n) && (n <=? 57))%N.

(** The character '/' (code 47). *)
Definition slash : Ascii.ascii := Ascii.ascii_of_nat 47.

(** [path[i]]: reading beyond the terminator of a [std::string] is
    undefined, and has no result here; [path[size()]] is the terminator. *)
Definition at_ (path : string) (i : nat) : outcome Ascii.ascii :=
  match String.get i path with
  | Some c => Returns c
  | None =>
      if Nat.eqb i (String.length path) then Returns Ascii.zero
      else Fatal "std::string::operator[] out of range"
  end.

(** [path.size() > 1 && path[0] == '/' && std::isdigit(path[1])], with the
    short-circuit evaluation of [&&]. *)
Definition startsWithSlashDigit (path : string) : outcome bool :=
  if Nat.ltb 1 (String.length path) then
    c0 <- at_ path 0 ;;
    if Ascii.eqb c0 slash then
      c1 <- at_ path 1 ;;
      Returns (isdigit c1)
    else Returns false
  else Returns false.

(** [getRequestHandler(msg, params)] on the path of the message.  The
    static [shouldPassHealthChecks] is passed in and handed back with the
    handler. *)
Definition getRequestHandler (path : string) (shouldPassHealthChecks : bool)
  : outcome (RequestHandler * bool) :=
  if String.eqb path "/" || String.eqb path "/echo" then
    Returns (EchoHandler, shouldPassHealthChecks)
  else if String.eqb path "/continue" then
    Returns (ContinueHandler, shouldPassHealthChecks)
  else
    digit <- startsWithSlashDigit path ;;
    if digit then Returns (RandBytesGenHandler, shouldPassHealthChecks)
    else if String.eqb path "/status" then
      Returns (HealthCheckHandler shouldPassHealthChecks,
               shouldPassHealthChecks)
    else if String.eqb path "/status_ok" then
      Returns (HealthCheckHandler true, true)
    else if String.eqb path "/status_fail" then
      Returns (HealthCheckHandler true, false)
    else if String.eqb path "/wait" || String.eqb path "/release" then
      Returns (WaitReleaseHandler, shouldPassHealthChecks)
    else if String.eqb path "/pr_cat" then
      Returns (PrCatHandler, shouldPassHealthChecks)
    else if String.prefix "/push" path then
      Returns (ServerPushHandler, shouldPassHealthChecks)
    else if String.eqb path "/pr_scripted_skip" then
      Returns (PrSkipHandler, shouldPassHealthChecks)
    else if String.eqb path "/pr_scripted_reject" then
      Returns (PrRejectHandler, shouldPassHealthChecks)
    else Returns (DummyHandler, shouldPassHealthChecks).

(** The requests of a server's life, in order: the handlers made for them
    and the flag they leave. *)
Fixpoint serve (paths : list string) (shouldPassHealthChecks : bool)
  : outcome (list RequestHandler * bool) :=
  match paths with
  | [] => Returns ([], shouldPassHealthChecks)
  | path :: rest =>
      made <- getRequestHandler path shouldPassHealthChecks ;;
      later <- serve rest (snd made) ;;
      Returns (fst made :: fst later, snd later)
  end.

(** What a request leaves the health checks at: "/status_ok" and
    "/status_fail" decide, every other path keeps what there was. *)
Definition healthNext (path : string) (flag : bool) : bool :=
  if String.eqb path "/status_ok" then true
  else if String.eqb path "/status_fail" then false
  else flag.

Definition healthAfter (paths : list string) (initially : bool) : bool :=
  fold_left (fun flag path => healthNext path flag) paths initially.

(** The test of the third branch, on the first two characters. *)
Definition slashDigit (path : string) : bool :=
  match path with
  | String c0 (String c1 _) => Ascii.eqb c0 slash && isdigit c1
  | _ => false
  end.

End Dispatcher.

(** ** More worked examples *)

Module MoreExamples.
Import StateMachine Examples.
#[local] Existing Instance HTTPTransactionEgressSM.specData.

(** A transport over an HTTP/1.1 codec: no parallel requests, no push, no
    extended transactions. *)
Definition serialTransport : Transport.t :=
  Transport.mk (HTTPCodec.mk false false)
    (fun _ _ => None) (fun _ _ _ => None).

(** A transport that opens stream 5 for every extended transaction it is
    asked for, bound to the control stream it is given. *)
Definition exTransport : Transport.t :=
  Transport.mk (HTTPCodec.mk true true)
    (fun _ _ => None)
    (fun _ controlStream unidirectional =>
       Some (newHTTPTransaction DOWNSTREAM 5 false 0 None
               (Some (mkExAttributes controlStream unidirectional)))).

(** A response whose headers have gone out. *)
Definition headersSentTxn : HTTPTransaction :=
  set_egressState_ HTTPTransactionEgressSM.HeadersSent downstreamTxn.

(** A request that has been received in full. *)
Definition receivedTxn : HTTPTransaction :=
  txn (ingressCalls quietHandler
         [OnIngress HEADERS_COMPLETE; OnIngress MESSAGE_COMPLETE]
         (newWorld downstreamTxn)).

(** A unidirectional extended transaction that the peer opened. *)
Definition unidirectionalTxn : HTTPTransaction :=
  newHTTPTransaction DOWNSTREAM 3 false 0 None (Some (mkExAttributes 1 true)).

(** A partially reliable transaction. *)
Definition partiallyReliableTxn : HTTPTransaction :=
  txn (onIngressUnframedBodyStarted 0 (newWorld downstreamTxn)).

(** The flags of a transaction that has sent nothing and sits in the
    active set. *)
Definition freshFlags : TransactionFlags :=
  mkTransactionFlags false false true false false.

End MoreExamples.

(** * Properties *)

(** ** The generic state machine *)

Section StateMachineFacts.
Import StateMachine.
Context {State Event : Type} `{SMData State Event}.

Lemma transit_accepted state event :
  snd (transit state event) = canTransit state event.
Proof.
  unfold transit, canTransit.
  destruct (find state event) as [s' ok]; destruct ok; reflexivity.
Qed.

Lemma transit_rejected state event :
  canTransit state event = false -> transit state event = (state, false).
Proof.
  unfold transit, canTransit.
  destruct (find state event) as [s' ok]; simpl; intros ->; reflexivity.
Qed.

Lemma transit_moves state event :
  canTransit state event = true ->
  transit state event = (fst (find state event), true).
Proof.
  unfold transit, canTransit.
  destruct (find state event) as [s' ok]; simpl; intros ->; reflexivity.
Qed.

(** Every state an execution visits is the state it started in or the
    target of an accepted table entry. *)
Lemma transitAll_invariant (P : State -> Prop) :
  (forall s e, P s -> snd (find s e) = true -> P (fst (find s e))) ->
  forall events s, P s -> P (transitAll s events).
Proof.
  intros Hstep events.
  induction events as [|e events IH]; intros s Hs; simpl; [exact Hs|].
  apply IH. unfold transit.
  specialize (Hstep s e Hs).
  destruct (find s e) as [s' ok]; destruct ok; simpl in *; auto.
Qed.

End StateMachineFacts.

(** ** The ingress state machine *)

Section IngressFacts.
Import StateMachine.
Import HTTPTransactionIngressSM.

Lemma find_unlisted (s : State) (e : Event) :
  entry transitions s e = None -> find s e = (s, false).
Proof. unfold find. intros ->. reflexivity. Qed.

Lemma canTransit_listed (s : State) (e : Event) :
  canTransit s e = true <-> exists s', entry transitions s e = Some s'.
Proof.
  change (canTransit s e) with (snd (find s e)). unfold find.
  destruct (entry transitions s e) as [s'|]; cbn [snd]; split.
  - intros _. exists s'. reflexivity.
  - reflexivity.
  - discriminate.
  - intros [s' [=]].
Qed.

(** No entry of the table leads to the sentinel. *)
Lemma find_defined (s : State) (e : Event) :
  defined s = true -> snd (find s e) = true -> defined (fst (find s e)) = true.
Proof. destruct s, e; vm_compute; congruence. Qed.

Lemma validate_ingressState (event : Event) (w : World) :
  ingressState_ (txn (fst (validateIngressStateTransition event w)))
  = fst (transit (ingressState_ (txn w)) event).
Proof.
  unfold validateIngressStateTransition.
  destruct (transit (ingressState_ (txn w)) event) as [state ok].
  destruct ok; reflexivity.
Qed.

Lemma validateAll_ingressState (events : list Event) (w : World) :
  ingressState_ (txn (validateAll events w))
  = transitAll (ingressState_ (txn w)) events.
Proof.
  revert w. induction events as [|e events IH]; intros w; [reflexivity|].
  simpl. rewrite IH, validate_ingressState. reflexivity.
Qed.

Context {egressSM : SMData HTTPTransactionEgressSM.State
                           HTTPTransactionEgressSM.Event}.

Lemma new_ingressState_defined direction id useFlowControl window assoc ex :
  defined (ingressState_
             (newHTTPTransaction direction id useFlowControl window assoc ex))
  = true.
Proof.
  unfold newHTTPTransaction.
  match goal with |- context [if ?c then _ else _] => destruct c end;
    [match goal with |- context [if ?c then _ else _] => destruct c end|];
    reflexivity.
Qed.


End IngressFacts.


(** ** The inline methods *)

(** The CHECK of the egress transition hands the transaction on with
    nothing but its egress state changed. *)
Ltac by_cases_on_transit :=
  repeat match goal with
         | |- context [StateMachine.transit ?s ?e] =>
             destruct (StateMachine.transit s e) as [? []]
         end.

Section MethodFacts.
Import StateMachine.
Context {egressSM : SMData HTTPTransactionEgressSM.State
                           HTTPTransactionEgressSM.Event}.
Context (transport_ : Transport.t).

Lemma mod2_odd (z : Z) : (z mod 2 =? 1) = Z.odd z.
Proof. rewrite Zmod_odd. destruct (Z.odd z); reflexivity. Qed.

Lemma mod2_even (z : Z) : (z mod 2 =? 0) = Z.even z.
Proof. rewrite Zmod_even. destruct (Z.even z); reflexivity. Qed.

(** C6: [isRemoteInitiated()] reads the initiator off the parity of the
    stream id: it is true exactly when the transaction is downstream with
    an odd id, or upstream with an even id. *)
Theorem isRemoteInitiated_parity (t : HTTPTransaction) :
  isRemoteInitiated t = true <->
  (direction_ t = DOWNSTREAM /\ Z.Odd (id_ t))
  \/ (direction_ t = UPSTREAM /\ Z.Even (id_ t)).
Proof.
  unfold isRemoteInitiated.
  rewrite mod2_odd, mod2_even, orb_true_iff, !andb_true_iff.
  rewrite !bool_decide_eq_true, <- Z.odd_spec, <- Z.even_spec.
  reflexivity.
Qed.

(** What [isUnidirectional] stands for: an extended transaction whose
    attributes carry the unidirectional flag. *)
Lemma isUnidirectional_ex (t : HTTPTransaction) :
  isUnidirectional t = true <->
  isExTransaction t = true
  /\ exists attributes,
       exAttributes_ t = Some attributes /\ unidirectional attributes = true.
Proof.
  unfold isUnidirectional, isExTransaction.
  destruct (exAttributes_ t) as [a|].
  - split.
    + intros Hu. split; [apply bool_decide_eq_true; eauto | exists a; auto].
    + intros (_ & a' & [= <-] & Hu). exact Hu.
  - split; [discriminate | intros (_ & a' & [=] & _)].
Qed.


(** *** canSendHeaders *)

Lemma extraResponseExpected_interim (t : HTTPTransaction) :
  extraResponseExpected t = interimStatus (lastResponseStatus_ t).
Proof. reflexivity. Qed.

Lemma interimStatus_spec (status : Z) :
  interimStatus status = true <-> 100 <= status < 200 /\ status <> 101.
Proof.
  unfold interimStatus.
  rewrite !andb_true_iff, negb_true_iff, Z.leb_le, Z.ltb_lt, Z.eqb_neq.
  tauto.
Qed.

Lemma recordResponseStatuses_last (recorded : list Z) (status : Z)
    (t : HTTPTransaction) :
  lastResponseStatus_ (recordResponseStatuses (recorded ++ [status]) t) = status.
Proof.
  unfold recordResponseStatuses. rewrite fold_left_app. reflexivity.
Qed.

Lemma recordResponseStatuses_other (recorded : list Z) (t : HTTPTransaction) :
  egressState_ (recordResponseStatuses recorded t) = egressState_ t
  /\ direction_ (recordResponseStatuses recorded t) = direction_ t.
Proof.
  revert t. induction recorded as [|status recorded IH]; intros t; [auto|].
  simpl. destruct (IH (recordResponseStatus status t)) as [-> ->]. auto.
Qed.


(** *** Chunking, trailers and push *)

Lemma checkEgressTransit_partiallyReliable event (t t' : HTTPTransaction) :
  checkEgressTransit event t = Returns t' ->
  partiallyReliable_ t' = partiallyReliable_ t.
Proof.
  unfold checkEgressTransit. by_cases_on_transit; simpl; [|discriminate].
  intros [= <-]. reflexivity.
Qed.



(** *** Pending byte events *)

Lemma wrap8_small (z : Z) : 0 <= z <= UINT8_MAX -> wrap8 z = z.
Proof. unfold wrap8, UINT8_MAX. intros. apply Z.mod_small. lia. Qed.

Lemma incrementPendingByteEvents_spec (t t' : HTTPTransaction) :
  0 <= pendingByteEvents_ t <= UINT8_MAX ->
  incrementPendingByteEvents t = Returns t' ->
  pendingByteEvents_ t < UINT8_MAX
  /\ pendingByteEvents_ t' = pendingByteEvents_ t + 1.
Proof.
  unfold incrementPendingByteEvents. intros Hrange.
  destruct (pendingByteEvents_ t <? UINT8_MAX) eqn:Hlt; simpl; [|discriminate].
  apply Z.ltb_lt in Hlt. intros [= <-]. simpl.
  rewrite wrap8_small by lia. auto.
Qed.

Lemma decrementPendingByteEvents_spec (t t' : HTTPTransaction) :
  0 <= pendingByteEvents_ t <= UINT8_MAX ->
  decrementPendingByteEvents t = Returns t' ->
  0 < pendingByteEvents_ t
  /\ pendingByteEvents_ t' = pendingByteEvents_ t - 1.
Proof.
  unfold decrementPendingByteEvents. intros Hrange.
  destruct (pendingByteEvents_ t >? 0) eqn:Hgt; simpl; [|discriminate].
  apply Z.gtb_lt in Hgt. intros [= <-]. simpl.
  rewrite wrap8_small by lia. auto.
Qed.

Lemma byteEventCalls_range (calls : list ByteEventCall) :
  forall t t',
    0 <= pendingByteEvents_ t <= UINT8_MAX ->
    byteEventCalls calls t = Returns t' ->
    0 <= pendingByteEvents_ t' <= UINT8_MAX.
Proof.
  induction calls as [|c calls IH]; intros t t' Hrange; simpl.
  - intros [= <-]. exact Hrange.
  - destruct (byteEventCall c t) as [t1|msg] eqn:Hcall; simpl; [|discriminate].
    apply IH. destruct c; simpl in Hcall.
    + destruct (incrementPendingByteEvents_spec _ _ Hrange Hcall). lia.
    + destruct (decrementPendingByteEvents_spec _ _ Hrange Hcall). lia.
Qed.

(** C9: the pending-byte-events counter, an 8-bit unsigned member, stays
    within 0..255.  [incrementPendingByteEvents] passes its CHECK exactly
    when the counter is below 255 and then adds one without wrapping, so at
    most 255 events are outstanding; [decrementPendingByteEvents] passes
    its CHECK exactly when the counter is positive and then subtracts one,
    so the counter never goes below zero; and so it is after any sequence
    of the two calls. *)
Theorem pendingByteEvents_range (t : HTTPTransaction) :
  0 <= pendingByteEvents_ t <= UINT8_MAX ->
  (refused (incrementPendingByteEvents t) <-> pendingByteEvents_ t = UINT8_MAX)
  /\ (forall t', incrementPendingByteEvents t = Returns t' ->
        pendingByteEvents_ t' = pendingByteEvents_ t + 1
        /\ pendingByteEvents_ t' <= UINT8_MAX)
  /\ (refused (decrementPendingByteEvents t) <-> pendingByteEvents_ t = 0)
  /\ (forall t', decrementPendingByteEvents t = Returns t' ->
        pendingByteEvents_ t' = pendingByteEvents_ t - 1
        /\ 0 <= pendingByteEvents_ t')
  /\ (forall calls t', byteEventCalls calls t = Returns t' ->
        0 <= pendingByteEvents_ t' <= UINT8_MAX).
Proof.
  intros Hrange. repeat split.
  - unfold incrementPendingByteEvents.
    destruct (pendingByteEvents_ t <? UINT8_MAX) eqn:Hlt; simpl;
      [intros [] | intros _; apply Z.ltb_ge in Hlt; lia].
  - intros Hmax. unfold incrementPendingByteEvents.
    rewrite Hmax. exact I.
  - destruct (incrementPendingByteEvents_spec _ _ Hrange H). lia.
  - destruct (incrementPendingByteEvents_spec _ _ Hrange H). lia.
  - unfold decrementPendingByteEvents.
    destruct (pendingByteEvents_ t >? 0) eqn:Hgt; simpl;
      [intros [] | intros _; rewrite Z.gtb_ltb in Hgt; apply Z.ltb_ge in Hgt; lia].
  - intros Hzero. unfold decrementPendingByteEvents.
    rewrite Hzero. exact I.
  - destruct (decrementPendingByteEvents_spec _ _ Hrange H). lia.
  - destruct (decrementPendingByteEvents_spec _ _ Hrange H). lia.
  - destruct (byteEventCalls_range _ _ _ Hrange H). assumption.
  - destruct (byteEventCalls_range _ _ _ Hrange H). assumption.
Qed.

(** *** The priority summary *)

(** C10: [getPrioritySummary()] never divides by zero and always returns:
    with no egress call so far the average weight ratio it reports is 0,
    and otherwise it is [cumulativeRatio_ / egressCalls_]. *)
Theorem getPrioritySummary_total (t : HTTPTransaction) :
  ~ refused (getPrioritySummary t)
  /\ (egressCalls_ t = 0 ->
      getPrioritySummary t
      = Returns (insertDepth_ t, currentDepth_ t, PrimFloat.zero))
  /\ (0 < egressCalls_ t ->
      getPrioritySummary t
      = Returns (insertDepth_ t, currentDepth_ t,
                 PrimFloat.div (cumulativeRatio_ t)
                               (double_of_uint64 (egressCalls_ t)))).
Proof.
  unfold getPrioritySummary, divide. repeat split.
  - destruct (egressCalls_ t >? 0) eqn:Hgt; simpl; [|tauto].
    apply Z.gtb_lt in Hgt.
    replace (egressCalls_ t =? 0) with false by lia. simpl. tauto.
  - intros ->. reflexivity.
  - intros Hpos.
    replace (egressCalls_ t >? 0) with true by lia.
    replace (egressCalls_ t =? 0) with false by lia. reflexivity.
Qed.

End MethodFacts.

(** ** Pause and resume notifications of the egress side *)

Section Alternation.

Abbreviation Paused := Handler.onEgressPaused.
Abbreviation Resumed := Handler.onEgressResumed.

(** Appending the callback whose turn it is keeps a sequence alternating. *)
Lemma alternates_snoc (l : list Handler.Callback) :
  forall first second,
    alternates first second l ->
    alternates first second
      (l ++ [if Nat.even (List.length l) then first else second]).
Proof.
  induction l as [|callback l IH]; intros first second.
  - simpl. auto.
  - intros [-> Hrest]. split; [reflexivity|].
    specialize (IH second first Hrest).
    change (List.length (first :: l)) with (S (List.length l)).
    rewrite Nat.even_succ, <- Nat.negb_even.
    destruct (Nat.even (List.length l)); exact IH.
Qed.

Lemma count_cons (callback x : Handler.Callback) (l : list Handler.Callback) :
  count callback (x :: l)
  = (if bool_decide (x = callback) then 1 else 0) + count callback l.
Proof.
  unfold count. cbn [List.filter].
  destruct (bool_decide (x = callback)); cbn [List.length]; lia.
Qed.

(** In an alternating sequence the two callbacks are as many, or the first
    leads by one. *)
Lemma alternates_count (l : list Handler.Callback) :
  forall first second,
    first <> second ->
    alternates first second l ->
    count first l - count second l
    = if Nat.even (List.length l) then 0 else 1.
Proof.
  induction l as [|callback l IH]; intros first second Hne.
  - reflexivity.
  - intros [-> Hrest].
    specialize (IH second first (not_eq_sym Hne) Hrest).
    rewrite !count_cons.
    rewrite bool_decide_eq_true_2 by reflexivity.
    rewrite bool_decide_eq_false_2 by exact Hne.
    change (List.length (first :: l)) with (S (List.length l)).
    rewrite Nat.even_succ, <- Nat.negb_even.
    destruct (Nat.even (List.length l)); simpl negb; cbv iota; lia.
Qed.

(** Neighbours in an alternating sequence are the two callbacks, in one
    order or the other. *)
Lemma alternates_neighbours (before : list Handler.Callback) :
  forall first second x y after,
    alternates first second (before ++ x :: y :: after) ->
    (x = first /\ y = second) \/ (x = second /\ y = first).
Proof.
  induction before as [|callback before IH]; intros first second x y after; simpl.
  - intros (-> & -> & _). auto.
  - intros [_ Hrest]. destruct (IH _ _ _ _ _ Hrest) as [[-> ->]|[-> ->]]; auto.
Qed.

Lemma alternates_second_follows_first (l : list Handler.Callback) :
  forall first second before after,
    first <> second ->
    alternates first second l ->
    l = before ++ second :: after ->
    exists earlier, before = earlier ++ [first].
Proof.
  intros first second before after Hne Halt ->.
  assert (Hnonempty : before <> []).
  { intros ->. destruct Halt as [Heq _]. congruence. }
  destruct (exists_last Hnonempty) as (earlier & x & ->).
  exists earlier. rewrite <- app_assoc in Halt.
  destruct (alternates_neighbours _ _ _ _ _ _ Halt) as [[-> _]|[_ Heq]];
    [reflexivity | congruence].
Qed.

End Alternation.

Section EgressPauseFacts.
Import StateMachine.
Context {egressSM : SMData HTTPTransactionEgressSM.State
                           HTTPTransactionEgressSM.Event}.
Context (egressBufferLimit_ : Z).

Lemma paused_not_resumed : Handler.onEgressPaused <> Handler.onEgressResumed.
Proof. discriminate. Qed.

Lemma sameNotifications_inStep (w w' : World) :
  sameNotifications w w' -> notifiedInStep w -> notifiedInStep w'.
Proof.
  unfold sameNotifications, notifiedInStep, pauseNotifications.
  intros [-> ->]. auto.
Qed.

Lemma pauseNotifications_call (callback : Handler.Callback) (w : World) :
  pauseNotifications (callHandler callback w)
  = pauseNotifications w
    ++ (if isPauseNotification callback then [callback] else []).
Proof.
  unfold pauseNotifications, callHandler. simpl.
  rewrite List.filter_app. simpl.
  destruct (isPauseNotification callback); reflexivity.
Qed.

Lemma updateHandlerPauseState_inStep (w : World) :
  notifiedInStep w -> notifiedInStep (updateHandlerPauseState egressBufferLimit_ w).
Proof.
  unfold updateHandlerPauseState. intros [Halt Hflag].
  set (should := (egressPaused_ (txn w)
                  || (egressBufferLimit_ <=? deferredEgressBody_ (txn w))
                  || (useFlowControl_ (txn w) && (sendWindow_ (txn w) <=? 0)))).
  destruct (Bool.eqb should (handlerEgressPaused_ (txn w))) eqn:Hsame.
  - split; assumption.
  - apply eqb_false_iff in Hsame.
    pose proof (alternates_snoc _ _ _ Halt) as Hsnoc.
    destruct should; unfold notifiedInStep;
      rewrite pauseNotifications_call; cbn [isPauseNotification];
      change (pauseNotifications (onTxn ?f (onTxn ?g w)))
        with (pauseNotifications w);
      rewrite length_app, Nat.add_1_r, Nat.even_succ, <- Nat.negb_even;
      destruct (Nat.even (List.length (pauseNotifications w)));
      simpl in *; try congruence; split; first [exact Hsnoc | reflexivity].
Qed.

Lemma egressCall_inStep (c : EgressCall) (w w' : World) :
  egressCall egressBufferLimit_ c w = Returns w' ->
  notifiedInStep w -> notifiedInStep w'.
Proof.
  intros Hcall Hw. destruct c; simpl in Hcall.
  - injection Hcall as <-. apply updateHandlerPauseState_inStep.
    revert Hw. apply sameNotifications_inStep. split; reflexivity.
  - injection Hcall as <-. apply updateHandlerPauseState_inStep.
    revert Hw. apply sameNotifications_inStep. split; reflexivity.
  - unfold sendBody in Hcall. revert Hcall. by_cases_on_transit; simpl;
      [|discriminate].
    intros [= <-]. apply updateHandlerPauseState_inStep.
    revert Hw. apply sameNotifications_inStep. split; reflexivity.
  - injection Hcall as <-. unfold onWriteReady.
    destruct (egressPaused_ (txn w)); [exact Hw|].
    apply updateHandlerPauseState_inStep.
    revert Hw. apply sameNotifications_inStep.
    destruct (useFlowControl_ (txn w));
      match goal with |- context [if ?c then _ else _] => destruct c end;
      split; reflexivity.
  - injection Hcall as <-. apply updateHandlerPauseState_inStep.
    revert Hw. apply sameNotifications_inStep. split; reflexivity.
Qed.

Lemma egressCalls_inStep (calls : list EgressCall) :
  forall w, notifiedInStep w ->
            notifiedInStep (egressCalls egressBufferLimit_ calls w).
Proof.
  induction calls as [|c calls IH]; intros w Hw; simpl; [exact Hw|].
  destruct (egressCall egressBufferLimit_ c w) as [w'|msg] eqn:Hcall;
    [|exact Hw].
  apply IH. exact (egressCall_inStep _ _ _ Hcall Hw).
Qed.

Lemma newWorld_inStep direction id useFlowControl window assoc ex :
  notifiedInStep
    (newWorld (newHTTPTransaction direction id useFlowControl window assoc ex)).
Proof.
  unfold newHTTPTransaction.
  match goal with |- context [if ?c then _ else _] => destruct c end;
    [match goal with |- context [if ?c then _ else _] => destruct c end|];
    split; simpl; auto.
Qed.

(** C7: in every execution of a transaction the onEgressPaused and
    onEgressResumed callbacks that the handler receives strictly alternate,
    beginning with onEgressPaused; the two counts differ by at most one;
    and an onEgressResumed always has an onEgressPaused just before it. *)
Theorem egress_notifications_alternate direction id useFlowControl window
    assoc ex (calls : list EgressCall) :
  let w :=
    egressCalls egressBufferLimit_ calls
      (newWorld (newHTTPTransaction direction id useFlowControl window
                                    assoc ex)) in
  alternates Handler.onEgressPaused Handler.onEgressResumed
    (pauseNotifications w)
  /\ 0 <= count Handler.onEgressPaused (pauseNotifications w)
          - count Handler.onEgressResumed (pauseNotifications w) <= 1
  /\ (forall before after,
        pauseNotifications w = before ++ Handler.onEgressResumed :: after ->
        exists earlier, before = earlier ++ [Handler.onEgressPaused]).
Proof.
  intros w.
  destruct (egressCalls_inStep calls _
              (newWorld_inStep direction id useFlowControl window assoc ex))
    as [Halt _].
  fold w in Halt. split; [exact Halt|]. split.
  - rewrite (alternates_count _ _ _ paused_not_resumed Halt).
    destruct (Nat.even (List.length (pauseNotifications w))); lia.
  - intros before after Heq.
    exact (alternates_second_follows_first _ _ _ _ _
             paused_not_resumed Halt Heq).
Qed.

End EgressPauseFacts.

(** ** Pausing and resuming ingress *)

Section IngressPauseFacts.
Import StateMachine.
Context {egressSM : SMData HTTPTransactionEgressSM.State
                           HTTPTransactionEgressSM.Event}.
Context (handlerPauses : list Handler.Callback -> bool).

Lemma validate_keeps_queue event (w : World) :
  let w' := fst (validateIngressStateTransition event w) in
  ingressPaused_ (txn w') = ingressPaused_ (txn w)
  /\ deferredIngress_ (txn w') = deferredIngress_ (txn w).
Proof.
  unfold validateIngressStateTransition.
  by_cases_on_transit; split; reflexivity.
Qed.

Lemma processIngress_keeps_queue (ev : HTTPEvent) (w : World) :
  deferredIngress_ (txn (processIngress handlerPauses ev w))
  = deferredIngress_ (txn w).
Proof.
  unfold processIngress.
  match goal with |- context [if ?c then _ else _] => destruct c end;
    destruct ev; reflexivity.
Qed.

Lemma drain_settles (queue : list HTTPEvent) :
  forall w,
    deferredEvents (txn w) = queue ->
    nothingDeferredUnlessPaused (drainDeferredIngress handlerPauses queue w).
Proof.
  induction queue as [|ev rest IH]; intros w Hqueue; simpl.
  - intros _. exact Hqueue.
  - destruct (ingressPaused_ (txn w)) eqn:Hpaused.
    + intros Hnot. congruence.
    + apply IH. unfold deferredEvents.
      rewrite processIngress_keeps_queue. reflexivity.
Qed.

Lemma pauseIngress_settled (w : World) :
  nothingDeferredUnlessPaused (pauseIngress w).
Proof. intros Hnot. discriminate Hnot. Qed.

Lemma resumeIngress_settled (w : World) :
  nothingDeferredUnlessPaused (resumeIngress handlerPauses w).
Proof. unfold resumeIngress. apply drain_settles. reflexivity. Qed.

Lemma onIngress_settled (ev : HTTPEvent) (w : World) :
  nothingDeferredUnlessPaused w ->
  nothingDeferredUnlessPaused (onIngress handlerPauses ev w).
Proof.
  intros Hw. unfold onIngress.
  destruct (aborted_ (txn w)); [exact Hw|].
  pose proof (validate_keeps_queue (ingressEventOf ev) w) as [Hpaused Hqueue].
  destruct (validateIngressStateTransition (ingressEventOf ev) w)
    as [w1 ok]; simpl in Hpaused, Hqueue.
  assert (Hw1 : nothingDeferredUnlessPaused w1).
  { unfold nothingDeferredUnlessPaused, deferredEvents in *.
    rewrite Hpaused, Hqueue. exact Hw. }
  destruct ok; simpl; [|exact Hw1].
  unfold mustQueueIngress.
  destruct (ingressPaused_ (txn w1)) eqn:Hp1; simpl.
  - intros Hnot. cbn [txn onTxn] in Hnot.
    unfold checkCreateDeferredIngress in Hnot.
    destruct (deferredIngress_ (txn w1)) eqn:Hq1; simpl in Hnot; congruence.
  - rewrite (Hw1 Hp1).
    rewrite bool_decide_eq_true_2 by reflexivity. simpl.
    intros _. unfold deferredEvents.
    rewrite processIngress_keeps_queue. exact (Hw1 Hp1).
Qed.

Lemma ingressCalls_settled (calls : list IngressCall) :
  forall w,
    nothingDeferredUnlessPaused w ->
    nothingDeferredUnlessPaused (ingressCalls handlerPauses calls w).
Proof.
  induction calls as [|c calls IH]; intros w Hw; simpl; [exact Hw|].
  apply IH. destruct c; simpl.
  - apply onIngress_settled. exact Hw.
  - apply pauseIngress_settled.
  - apply resumeIngress_settled.
Qed.

Lemma newWorld_settled direction id useFlowControl window assoc ex :
  nothingDeferredUnlessPaused
    (newWorld (newHTTPTransaction direction id useFlowControl window assoc ex)).
Proof.
  unfold newHTTPTransaction.
  match goal with |- context [if ?c then _ else _] => destruct c end;
    [match goal with |- context [if ?c then _ else _] => destruct c end|];
    intros _; reflexivity.
Qed.

(** With ingress not paused and nothing deferred, the pair only shows in
    the calls made on the transport. *)
Lemma pauseThenResume_noop (w : World) :
  nothingDeferredUnlessPaused w ->
  ingressPaused_ (txn w) = false ->
  pauseThenResume handlerPauses w
  = mkWorld (txn w) (handlerCalls w)
      (transportCalls w
       ++ [TransportCall.pauseIngress; TransportCall.resumeIngress]).
Proof.
  intros Hw Hnot. specialize (Hw Hnot).
  unfold pauseThenResume, resumeIngress, pauseIngress.
  destruct w as [t handler transport]. destruct t.
  unfold deferredEvents in *. simpl in *. subst.
  rewrite Hw. unfold callTransport, onTxn. simpl.
  rewrite <- app_assoc. reflexivity.
Qed.

(** C8, as the code has it: when ingress is not already paused,
    [pauseIngress()] immediately followed by [resumeIngress()] is a no-op
    for the handler: it receives no callback, and the transaction (its
    ingress state and its deferred-ingress queue among the rest) is
    afterwards what it was before. *)
Theorem pause_resume_when_not_paused direction id useFlowControl window
    assoc ex (calls : list IngressCall) :
  let w :=
    ingressCalls handlerPauses calls
      (newWorld (newHTTPTransaction direction id useFlowControl window
                                    assoc ex)) in
  ingressPaused_ (txn w) = false ->
  let w' := pauseThenResume handlerPauses w in
  handlerCalls w' = handlerCalls w
  /\ ingressState_ (txn w') = ingressState_ (txn w)
  /\ deferredIngress_ (txn w') = deferredIngress_ (txn w)
  /\ txn w' = txn w.
Proof.
  intros w Hnot w'. subst w'.
  rewrite pauseThenResume_noop; [repeat split | | exact Hnot].
  apply ingressCalls_settled, newWorld_settled.
Qed.

End IngressPauseFacts.

(** ** The properties at work *)

Section Worked.
Import StateMachine Examples.
#[local] Existing Instance HTTPTransactionEgressSM.specData.




Lemma pushingTransport_honours :
  Transport.honoursAssocStream pushingTransport.
Proof. intros assocStreamId handler pushed [= <-]. reflexivity. Qed.




(** A new transaction has no pending byte event: a decrement is refused,
    and no sequence of calls takes the counter out of range. *)
Lemma pendingByteEvents_range_witness :
  0 <= pendingByteEvents_ downstreamTxn <= UINT8_MAX
  /\ refused (decrementPendingByteEvents downstreamTxn)
  /\ (forall calls t',
        byteEventCalls calls downstreamTxn = Returns t' ->
        0 <= pendingByteEvents_ t' <= UINT8_MAX).
Proof.
  assert (Hrange : 0 <= pendingByteEvents_ downstreamTxn <= UINT8_MAX)
    by (vm_compute; split; discriminate).
  destruct (pendingByteEvents_range downstreamTxn Hrange)
    as (_ & _ & Hdecrement & _ & Hcalls).
  split; [exact Hrange|]. split; [|exact Hcalls].
  apply Hdecrement. reflexivity.
Defined.

(** After two flushes with weight ratios 0.5 and 1 the average is 0.75. *)
Lemma getPrioritySummary_total_witness :
  let t := txn flushedTwice in
  0 < egressCalls_ t
  /\ getPrioritySummary t = Returns (0, 0, 0.75%float).
Proof.
  intros t.
  assert (Hcalls : 0 < egressCalls_ t) by (vm_compute; reflexivity).
  split; [exact Hcalls|].
  exact (proj2 (proj2 (getPrioritySummary_total t)) Hcalls).
Defined.

(** Ingress paused with a body waiting: the pair of calls hands the body to
    the handler and empties the queue. *)
Lemma pause_resume_when_already_paused :
  let w := pausedWithBody in
  let w' := pauseThenResume quietHandler w in
  ingressPaused_ (txn w) = true
  /\ handlerCalls w = [Handler.onHeadersComplete]
  /\ handlerCalls w' = [Handler.onHeadersComplete; Handler.onBody 5]
  /\ deferredIngress_ (txn w) = Some [BODY 5]
  /\ deferredIngress_ (txn w') = Some [].
Proof. vm_compute. repeat split. Qed.

(** The pair of calls right after the headers have been delivered. *)
Lemma pause_resume_when_not_paused_witness :
  let w :=
    ingressCalls quietHandler [OnIngress HEADERS_COMPLETE]
      (newWorld downstreamTxn) in
  let w' := pauseThenResume quietHandler w in
  ingressPaused_ (txn w) = false
  /\ handlerCalls w' = handlerCalls w
  /\ ingressState_ (txn w') = ingressState_ (txn w)
  /\ deferredIngress_ (txn w') = deferredIngress_ (txn w)
  /\ txn w' = txn w.
Proof.
  intros w w'.
  exact (conj eq_refl
           (pause_resume_when_not_paused quietHandler DOWNSTREAM 1 false 0
              None None [OnIngress HEADERS_COMPLETE] eq_refl)).
Defined.

(** Seed test 3 of spec 8: a send window of 10 and a body of 15 bytes. *)
Example flow_controlled_stall :
  let w :=
    egressCalls 65536
      [SendBody 15; OnWriteReady 100 1%float; OnIngressWindowUpdate 5]
      (onTxn (set_egressState_ HTTPTransactionEgressSM.HeadersSent)
         (newWorld (newHTTPTransaction DOWNSTREAM 1 true 10 None None))) in
  transportCalls w = [TransportCall.sendBody 10 false]
  /\ deferredEgressBody_ (txn w) = 5
  /\ handlerCalls w = [Handler.onEgressPaused; Handler.onEgressResumed].
Proof. vm_compute. repeat split. Qed.

(** The same execution: its one onEgressResumed comes right after an
    onEgressPaused. *)
Example flow_controlled_stall_notifications :
  let w :=
    egressCalls 65536
      [SendBody 15; OnWriteReady 100 1%float; OnIngressWindowUpdate 5]
      (onTxn (set_egressState_ HTTPTransactionEgressSM.HeadersSent)
         (newWorld (newHTTPTransaction DOWNSTREAM 1 true 10 None None))) in
  pauseNotifications w = [Handler.onEgressPaused; Handler.onEgressResumed]
  /\ count Handler.onEgressPaused (pauseNotifications w)
     - count Handler.onEgressResumed (pauseNotifications w) = 0.
Proof. vm_compute. repeat split. Qed.

(** Back-pressure from the transport, lifted and applied again: the second
    notification is preceded by the first. *)
Lemma egress_notifications_alternate_witness :
  let w :=
    egressCalls 65536 [PauseEgress; ResumeEgress; PauseEgress]
      (newWorld downstreamTxn) in
  pauseNotifications w
  = [Handler.onEgressPaused] ++ Handler.onEgressResumed :: [Handler.onEgressPaused]
  /\ exists earlier, [Handler.onEgressPaused] = earlier ++ [Handler.onEgressPaused].
Proof.
  intros w.
  assert (Hsplit : pauseNotifications w
                   = [Handler.onEgressPaused]
                     ++ Handler.onEgressResumed :: [Handler.onEgressPaused])
    by reflexivity.
  split; [exact Hsplit|].
  exact (proj2 (proj2 (egress_notifications_alternate 65536 DOWNSTREAM 1 false 0
                         None None [PauseEgress; ResumeEgress; PauseEgress]))
           _ _ Hsplit).
Defined.

(** Seed test 1 of spec 8, ingress side: headers, then the end of the
    message. *)
Example simple_get_ingress :
  let w :=
    ingressCalls quietHandler
      [OnIngress HEADERS_COMPLETE; OnIngress MESSAGE_COMPLETE]
      (newWorld downstreamTxn) in
  handlerCalls w = [Handler.onHeadersComplete; Handler.onEOM]
  /\ ingressState_ (txn w) = HTTPTransactionIngressSM.ReceivingDone.
Proof. vm_compute. repeat split. Qed.

End Worked.

(** ** More on the inline methods *)

Section MoreMethodFacts.
Import StateMachine.
Context {egressSM : SMData HTTPTransactionEgressSM.State
                           HTTPTransactionEgressSM.Event}.
Context (transport_ : Transport.t).

Lemma rebuild_same (t : HTTPTransaction) : rebuild t = t.
Proof. destruct t. reflexivity. Qed.

Lemma insert_then_remove (id : StreamID) (ids : gset StreamID) :
  id ∉ ids -> ({[ id ]} ∪ ids) ∖ {[ id ]} = ids.
Proof.
  intros Hfresh. apply set_eq. intros x.
  rewrite elem_of_difference, elem_of_union, elem_of_singleton.
  split; [intros [[->|Hin] Hne]; [congruence | exact Hin] |].
  intros Hin. split; [auto | congruence].
Qed.

Lemma remove_absent (id : StreamID) (ids : gset StreamID) :
  id ∉ ids -> ids ∖ {[ id ]} = ids.
Proof.
  intros Hfresh. apply set_eq. intros x.
  rewrite elem_of_difference, elem_of_singleton.
  split; [tauto | intros Hin; split; [exact Hin | congruence]].
Qed.

Lemma remove_twice (id : StreamID) (ids : gset StreamID) :
  (ids ∖ {[ id ]}) ∖ {[ id ]} = ids ∖ {[ id ]}.
Proof.
  apply set_eq. intros x.
  rewrite !elem_of_difference, elem_of_singleton. tauto.
Qed.

Lemma mod2_one_not_zero (z : Z) : (z mod 2 =? 1) = negb (z mod 2 =? 0).
Proof. rewrite mod2_odd, mod2_even, Z.negb_even. reflexivity. Qed.


(** X2: the progress predicates are ordered.  On either side, complete
    implies EOM seen and EOM seen implies started; the EOM is never both
    queued and flushed; and a pending egress EOM means that the EOM is
    queued with no body left to send. *)
Theorem progress_predicates_ordered (t : HTTPTransaction) :
  (isIngressComplete t = true -> isIngressEOMSeen t = true)
  /\ (isIngressEOMSeen t = true -> isIngressStarted t = true)
  /\ isIngressEOMQueued t && isIngressComplete t = false
  /\ (isEgressComplete t = true -> isEgressEOMSeen t = true)
  /\ (isEgressEOMSeen t = true -> isEgressStarted t = true)
  /\ isEgressEOMQueued t && isEgressComplete t = false
  /\ (hasPendingEOM t = true ->
      isEgressEOMQueued t = true /\ hasPendingBody t = false).
Proof.
  unfold isIngressEOMSeen, isEgressEOMSeen, hasPendingEOM, hasPendingBody.
  unfold isIngressComplete, isIngressStarted, isIngressEOMQueued,
    isEgressComplete, isEgressStarted, isEgressEOMQueued.
  split; [|split; [|split]].
  1-3: generalize (ingressState_ t); intros []; vm_compute; congruence.
  split; [|split; [|split]].
  1-3: generalize (egressState_ t); intros []; vm_compute; congruence.
  intros Hpending. apply andb_true_iff in Hpending as [Hlen Hqueued].
  apply Z.eqb_eq in Hlen. rewrite Hlen. auto.
Qed.

(** *** The egress calls with a CHECK *)

Lemma checkEgressTransit_spec event (t : HTTPTransaction) :
  checkEgressTransit event t
  = if canTransit (egressState_ t) event
    then Returns (set_egressState_ (fst (find (egressState_ t) event)) t)
    else Fatal "Check failed: HTTPTransactionEgressSM::transit".
Proof.
  unfold checkEgressTransit, transit, canTransit.
  destruct (find (egressState_ t) event) as [state []]; reflexivity.
Qed.

(** X3: [sendChunkHeader], [sendChunkTerminator] and [sendTrailers] pass
    their CHECKs exactly when the egress state machine accepts the event in
    the current state and the transaction is not partially reliable. *)
Theorem egress_calls_accepted_exactly (t : HTTPTransaction) (length : Z)
    (trailers : HTTPHeaders) :
  (~ refused (sendChunkHeader transport_ length t) <->
   canTransit (egressState_ t) HTTPTransactionEgressSM.sendChunkHeader = true
   /\ partiallyReliable_ t = false)
  /\ (~ refused (sendChunkTerminator t) <->
      canTransit (egressState_ t) HTTPTransactionEgressSM.sendChunkTerminator
      = true
      /\ partiallyReliable_ t = false)
  /\ (~ refused (sendTrailers trailers t) <->
      canTransit (egressState_ t) HTTPTransactionEgressSM.sendTrailers = true
      /\ partiallyReliable_ t = false).
Proof.
  unfold sendChunkHeader, sendChunkTerminator, sendTrailers.
  rewrite !checkEgressTransit_spec.
  split; [|split];
    match goal with
    | |- context [canTransit ?s ?e] => destruct (canTransit s e)
    end; simpl;
    destruct (partiallyReliable_ t); simpl;
    try destruct (HTTPCodec.supportsParallelRequests
                    (Transport.getCodec transport_)); simpl;
    intuition congruence.
Qed.

(** X4: what the three calls leave behind when they return.  The egress
    state is the target of the table entry.  [sendChunkHeader] queues a
    chunk of the given length with its header unsent, behind the chunks
    already queued, unless the codec is a multiplexing one, in which case
    the list is left alone; [sendChunkTerminator] changes nothing else;
    [sendTrailers] stores the trailers in place of any stored before.  No
    other member changes. *)
Theorem egress_calls_effect (t t' : HTTPTransaction) (length : Z)
    (trailers : HTTPHeaders) :
  (sendChunkHeader transport_ length t = Returns t' ->
   t' = set_chunkHeaders_
          (if HTTPCodec.supportsParallelRequests (Transport.getCodec transport_)
           then chunkHeaders_ t
           else chunkHeaders_ t ++ [mkChunk length false])
          (set_egressState_
             (fst (find (egressState_ t)
                        HTTPTransactionEgressSM.sendChunkHeader)) t))
  /\ (sendChunkTerminator t = Returns t' ->
      t' = set_egressState_
             (fst (find (egressState_ t)
                        HTTPTransactionEgressSM.sendChunkTerminator)) t)
  /\ (sendTrailers trailers t = Returns t' ->
      t' = set_trailers_ (Some trailers)
             (set_egressState_
                (fst (find (egressState_ t)
                           HTTPTransactionEgressSM.sendTrailers)) t)).
Proof.
  unfold sendChunkHeader, sendChunkTerminator, sendTrailers.
  rewrite !checkEgressTransit_spec.
  repeat split;
    match goal with
    | |- context [canTransit ?s ?e] => destruct (canTransit s e)
    end; simpl; try discriminate;
    destruct (partiallyReliable_ t); simpl; try discriminate.
  - destruct (HTTPCodec.supportsParallelRequests
                (Transport.getCodec transport_)); simpl;
      intros [= <-]; destruct t; reflexivity.
  - intros [= <-]. reflexivity.
  - intros [= <-]. reflexivity.
Qed.

(** *** Pushed and extended transactions *)

(** X5: [newPushedTransaction] never drops an id: whatever it returns, the
    pushed-transactions set afterwards holds what it held before and at
    most the id of the transaction returned, and when the call returns null
    (EOM seen, or the transport declines) the transaction is unchanged. *)
Theorem newPushedTransaction_keeps_pushed (handler : HandlerRef)
    (t t' : HTTPTransaction) (result : option HTTPTransaction) :
  newPushedTransaction transport_ handler t = Returns (result, t') ->
  pushedTransactions_ t ⊆ pushedTransactions_ t'
  /\ (result = None -> t' = t)
  /\ (forall id, id ∈ pushedTransactions_ t' ->
        id ∈ pushedTransactions_ t
        \/ exists pushed, result = Some pushed /\ id = getID pushed).
Proof.
  unfold newPushedTransaction.
  destruct (partiallyReliable_ t); simpl; [discriminate|].
  destruct (isEgressEOMSeen t).
  - intros [= <- <-]. repeat split; auto.
  - destruct (Transport.newPushedTransaction transport_ (id_ t) handler)
      as [pushed|]; intros [= <- <-]; simpl.
    + repeat split; [set_solver | discriminate |].
      intros id Hin. apply elem_of_union in Hin as [Hin|Hin]; [|auto].
      right. exists pushed. split; [reflexivity | set_solver].
    + repeat split; auto.
Qed.

(** X6: pushing and then removing is a round trip: when
    [newPushedTransaction] returns a transaction whose id was not in the
    set, [removePushedTransaction] of that id gives back the transaction as
    it was before the push. *)
Theorem push_then_remove (handler : HandlerRef) (t t' pushed : HTTPTransaction) :
  newPushedTransaction transport_ handler t = Returns (Some pushed, t') ->
  getID pushed ∉ pushedTransactions_ t ->
  removePushedTransaction (getID pushed) t' = t.
Proof.
  unfold newPushedTransaction.
  destruct (partiallyReliable_ t); simpl; [discriminate|].
  destruct (isEgressEOMSeen t); [discriminate|].
  destruct (Transport.newPushedTransaction transport_ (id_ t) handler)
    as [txn|]; [|discriminate].
  intros [= -> <-] Hfresh.
  unfold removePushedTransaction. simpl.
  rewrite insert_then_remove by exact Hfresh.
  destruct t. reflexivity.
Qed.

(** X7: [removePushedTransaction] takes out the given id and nothing else;
    removing an id that is not in the set leaves the transaction as it is,
    so a second removal is a no-op. *)
Theorem removePushedTransaction_exact (pushStreamId : StreamID)
    (t : HTTPTransaction) :
  (forall id, id ∈ pushedTransactions_ (removePushedTransaction pushStreamId t)
              <-> id ∈ pushedTransactions_ t /\ id <> pushStreamId)
  /\ (pushStreamId ∉ pushedTransactions_ t ->
      removePushedTransaction pushStreamId t = t)
  /\ removePushedTransaction pushStreamId
       (removePushedTransaction pushStreamId t)
     = removePushedTransaction pushStreamId t.
Proof.
  unfold removePushedTransaction. split; [|split].
  - intros id. simpl. set_solver.
  - intros Habsent.
    rewrite remove_absent by exact Habsent.
    destruct t. reflexivity.
  - simpl.
    rewrite remove_twice.
    reflexivity.
Qed.

(** X8: [newExTransaction] has none of the guards of
    [newPushedTransaction]: whatever the state of the transaction (partially
    reliable, egress EOM seen), it returns what the transport returns for
    this transaction's id as the control stream; the id of a transaction
    returned joins [exTransactions_], nothing else changes, and
    [removeExTransaction] of a fresh id undoes the call. *)
Theorem newExTransaction_result (handler : HandlerRef) (unidirectional : bool)
    (t : HTTPTransaction) :
  let result := newExTransaction transport_ handler unidirectional t in
  fst result
  = Transport.newExTransaction transport_ handler (id_ t) unidirectional
  /\ (fst result = None -> snd result = t)
  /\ (forall ex, fst result = Some ex ->
        snd result
        = set_exTransactions_ ({[ getID ex ]} ∪ exTransactions_ t) t
        /\ (getID ex ∉ exTransactions_ t ->
            removeExTransaction (getID ex) (snd result) = t)).
Proof.
  unfold newExTransaction.
  destruct (Transport.newExTransaction transport_ handler (id_ t)
              unidirectional) as [ex|]; simpl.
  - repeat split; [discriminate | congruence |].
    injection H as <-. intros Hfresh. unfold removeExTransaction. simpl.
    rewrite insert_then_remove by exact Hfresh.
    destruct t. reflexivity.
  - repeat split; discriminate.
Qed.

(** X9: an error that is tagged with both directions is never notified on
    an extended transaction, and of INGRESS and EGRESS never both are: on a
    unidirectional transaction exactly one of the two is notified. *)
Theorem shouldNotifyExTxnError_one_direction (t : HTTPTransaction) :
  shouldNotifyExTxnError INGRESS_AND_EGRESS t = false
  /\ shouldNotifyExTxnError INGRESS t && shouldNotifyExTxnError EGRESS t = false
  /\ (isUnidirectional t = true ->
      shouldNotifyExTxnError INGRESS t
      = negb (shouldNotifyExTxnError EGRESS t)).
Proof.
  unfold shouldNotifyExTxnError.
  destruct (isUnidirectional t), (isRemoteInitiated t);
    repeat split; try reflexivity; discriminate.
Qed.

(** *** Pending byte events *)

(** X10: an increment followed by a decrement, and a decrement followed by
    an increment, give the transaction back as it was. *)
Theorem pendingByteEvents_round_trip (t t1 : HTTPTransaction) :
  0 <= pendingByteEvents_ t <= UINT8_MAX ->
  (incrementPendingByteEvents t = Returns t1 ->
   decrementPendingByteEvents t1 = Returns t)
  /\ (decrementPendingByteEvents t = Returns t1 ->
      incrementPendingByteEvents t1 = Returns t).
Proof.
  intros Hrange. split; intros Hcall.
  - destruct (incrementPendingByteEvents_spec _ _ Hrange Hcall) as [Hlt Hnew].
    unfold incrementPendingByteEvents in Hcall.
    replace (pendingByteEvents_ t <? UINT8_MAX) with true in Hcall by lia.
    simpl in Hcall. injection Hcall as <-.
    unfold decrementPendingByteEvents. simpl in *. rewrite Hnew.
    replace (pendingByteEvents_ t + 1 >? 0) with true by lia. simpl.
    replace (pendingByteEvents_ t + 1 - 1) with (pendingByteEvents_ t) by lia.
    rewrite wrap8_small by lia. destruct t. reflexivity.
  - destruct (decrementPendingByteEvents_spec _ _ Hrange Hcall) as [Hgt Hnew].
    unfold decrementPendingByteEvents in Hcall.
    replace (pendingByteEvents_ t >? 0) with true in Hcall by lia.
    simpl in Hcall. injection Hcall as <-.
    unfold incrementPendingByteEvents. simpl in *. rewrite Hnew.
    replace (pendingByteEvents_ t - 1 <? UINT8_MAX) with true by lia. simpl.
    replace (pendingByteEvents_ t - 1 + 1) with (pendingByteEvents_ t) by lia.
    rewrite wrap8_small by lia. destruct t. reflexivity.
Qed.

Lemma byteEventCall_frame (c : ByteEventCall) (t t' : HTTPTransaction) :
  byteEventCall c t = Returns t' ->
  t' = set_pendingByteEvents_ (pendingByteEvents_ t') t.
Proof.
  destruct c; simpl;
    [unfold incrementPendingByteEvents | unfold decrementPendingByteEvents];
    match goal with |- context [check ?c _] => destruct c end; simpl;
    try discriminate; intros [= <-]; reflexivity.
Qed.

(** X11: the counter counts: after a run of calls that passes every CHECK
    the counter is what it was, plus the number of increments, minus the
    number of decrements, and no other member of the transaction has
    changed. *)
Theorem pendingByteEvents_counts (calls : list ByteEventCall)
    (t t' : HTTPTransaction) :
  0 <= pendingByteEvents_ t <= UINT8_MAX ->
  byteEventCalls calls t = Returns t' ->
  pendingByteEvents_ t'
  = pendingByteEvents_ t + increments calls - decrements calls
  /\ t' = set_pendingByteEvents_ (pendingByteEvents_ t') t.
Proof.
  revert t. induction calls as [|c calls IH]; intros t Hrange; simpl.
  - intros [= <-]. split; [unfold increments, decrements; simpl; lia|].
    destruct t. reflexivity.
  - destruct (byteEventCall c t) as [t1|msg] eqn:Hcall; simpl; [|discriminate].
    intros Hrest.
    assert (Hrange1 : 0 <= pendingByteEvents_ t1 <= UINT8_MAX)
      by exact (byteEventCalls_range [c] t t1 Hrange
                  ltac:(simpl; rewrite Hcall; reflexivity)).
    destruct (IH t1 Hrange1 Hrest) as [Hcount Hframe].
    pose proof (byteEventCall_frame _ _ _ Hcall) as Hframe1.
    split.
    + rewrite Hcount. unfold increments, decrements.
      destruct c; simpl in Hcall; cbn [List.filter List.length].
      * destruct (incrementPendingByteEvents_spec _ _ Hrange Hcall). lia.
      * destruct (decrementPendingByteEvents_spec _ _ Hrange Hcall). lia.
    + rewrite Hframe, Hframe1. reflexivity.
Qed.

(** X12: the counter saturates at 255: [n] increments in a row pass their
    CHECKs exactly when the counter plus [n] does not exceed 255. *)
Theorem pendingByteEvents_capacity (n : nat) (t : HTTPTransaction) :
  0 <= pendingByteEvents_ t <= UINT8_MAX ->
  (~ refused (byteEventCalls (repeat IncrementPendingByteEvents n) t)
   <-> pendingByteEvents_ t + Z.of_nat n <= UINT8_MAX).
Proof.
  revert t. induction n as [|n IH]; intros t Hrange.
  - simpl. split; [lia | tauto].
  - cbn [repeat byteEventCalls byteEventCall].
    destruct (incrementPendingByteEvents t) as [t1|msg] eqn:Hcall; simpl.
    + destruct (incrementPendingByteEvents_spec _ _ Hrange Hcall) as [Hlt Hnew].
      rewrite IH by lia. lia.
    + assert (Hfull : pendingByteEvents_ t = UINT8_MAX).
      { unfold incrementPendingByteEvents in Hcall.
        destruct (pendingByteEvents_ t <? UINT8_MAX) eqn:Hlt;
          [discriminate | apply Z.ltb_ge in Hlt; lia]. }
      split; [tauto | lia].
Qed.

End MoreMethodFacts.

(** ** The first-byte flags and delivery tracking *)

Section FlagFacts.

Lemma flagCall_keeps (c : FlagCall) (f : TransactionFlags) :
  let f' := snd (flagCall c f) in
  (firstByteSent_ f = true -> firstByteSent_ f' = true)
  /\ (firstHeaderByteSent_ f = true -> firstHeaderByteSent_ f' = true)
  /\ (inActiveSet_ f = false -> inActiveSet_ f' = false).
Proof. destruct c; simpl; auto. Qed.

Lemma flagCalls_keeps (calls : list FlagCall) :
  forall f,
    let f' := snd (flagCalls calls f) in
    (firstByteSent_ f = true -> firstByteSent_ f' = true)
    /\ (firstHeaderByteSent_ f = true -> firstHeaderByteSent_ f' = true)
    /\ (inActiveSet_ f = false -> inActiveSet_ f' = false).
Proof.
  induction calls as [|c calls IH]; intros f; simpl; [auto|].
  pose proof (flagCall_keeps c f) as Hc.
  destruct (flagCall c f) as [ret f1]. simpl in Hc.
  specialize (IH f1). destruct (flagCalls calls f1) as [rets f2].
  simpl in *. intuition.
Qed.

(** X13: each first byte is reported once.  After one call of
    [testAndSetFirstByteSent] (or [testAndSetFirstHeaderByteSent]) every
    later call returns true, and after one call of [testAndClearActive]
    every later call returns false, whatever other test-and-modify calls
    come in between. *)
Theorem first_byte_reported_once (f : TransactionFlags)
    (calls : list FlagCall) :
  fst (testAndSetFirstByteSent
         (snd (flagCalls calls (snd (testAndSetFirstByteSent f))))) = true
  /\ fst (testAndSetFirstHeaderByteSent
            (snd (flagCalls calls (snd (testAndSetFirstHeaderByteSent f)))))
     = true
  /\ fst (testAndClearActive
            (snd (flagCalls calls (snd (testAndClearActive f))))) = false.
Proof.
  split; [|split]; simpl.
  - apply (flagCalls_keeps calls). reflexivity.
  - apply (flagCalls_keeps calls). reflexivity.
  - apply (flagCalls_keeps calls). reflexivity.
Qed.

(** X14: delivery tracking of the last body byte can be switched only on a
    partially reliable transaction: otherwise the call answers
    PROTOCOL_ERROR and changes no flag; on a partially reliable one, such
    as a transaction that has met the start of an unframed body, it
    succeeds and sets that one flag. *)
Theorem delivery_tracking_needs_partial_reliability (enabled : bool)
    (t : HTTPTransaction) (f : TransactionFlags) :
  let result := setBodyLastByteDeliveryTrackingEnabled enabled t f in
  (fst result = Unexpected PROTOCOL_ERROR <-> partiallyReliable_ t = false)
  /\ (partiallyReliable_ t = false -> snd result = f)
  /\ (partiallyReliable_ t = true ->
      fst result = Value tt
      /\ enableBodyLastByteDeliveryTracking_ (snd result) = enabled
      /\ setBodyLastByteDeliveryTrackingEnabled
           (enableBodyLastByteDeliveryTracking_ f) t (snd result)
         = (Value tt, f))
  /\ (forall offset w,
        fst (setBodyLastByteDeliveryTrackingEnabled enabled
               (txn (onIngressUnframedBodyStarted offset w)) f)
        = Value tt).
Proof.
  unfold setBodyLastByteDeliveryTrackingEnabled.
  destruct (partiallyReliable_ t); simpl; repeat split;
    try congruence; try discriminate.
  destruct f. reflexivity.
Qed.

End FlagFacts.

(** ** Printing stream types and directions *)

Section PrintingFacts.
Import hq.

Lemma append_inv_head (os x y : string) :
  String.append os x = String.append os y -> x = y.
Proof.
  induction os as [|c os IH]; simpl; [auto|].
  intros [= Heq]. auto.
Qed.

Lemma printStreamType_typeName (os : ostream) (type : UnidirectionalStreamType) :
  printStreamType os type = String.append os (typeName type).
Proof. destruct type; reflexivity. Qed.



End PrintingFacts.

(** ** Session statistics *)

Section StatsFacts.
Import TLHTTPSessionStats.

Lemma record_prefix (c : Call) (s : t) : prefix (record c s) = prefix s.
Proof. destruct c; reflexivity. Qed.

Lemma recordAll_prefix (calls : list Call) :
  forall s, prefix (recordAll calls s) = prefix s.
Proof.
  induction calls as [|c calls IH]; intros s; simpl; [reflexivity|].
  rewrite IH. apply record_prefix.
Qed.

Lemma suffixes_distinct : NoDup suffixes.
Proof. apply (bool_decide_unpack _). vm_compute. exact I. Qed.

Lemma NoDup_map_append (os : string) (l : list string) :
  NoDup l -> NoDup (List.map (String.append os) l).
Proof.
  induction l as [|x l IH]; simpl; intros Hl; [constructor|].
  apply NoDup_cons in Hl as [Hx Hl]. apply NoDup_cons. split; [|auto].
  intros Hin. apply list_elem_of_In, in_map_iff in Hin as (y & Heq & Hy).
  apply append_inv_head in Heq as ->. apply Hx, list_elem_of_In, Hy.
Qed.

(** X17: no two statistics of a session share a name: whatever the prefix,
    the nineteen names that the constructor builds from it are pairwise
    distinct, and they stay what they are through every recording call. *)
Theorem stat_names_distinct (prefix : string) (calls : list Call) :
  NoDup (names (new prefix))
  /\ names (recordAll calls (new prefix)) = names (new prefix)
  /\ List.length (names (new prefix)) = 19%nat.
Proof.
  split; [|split].
  - unfold names. apply NoDup_map_append, suffixes_distinct.
  - unfold names. rewrite recordAll_prefix. reflexivity.
  - reflexivity.
Qed.

Lemma record_open (c : Call) (s : t) :
  txnsOpen (record c s) = txnsOpen s + opened [c] - closed [c]
  /\ timeseries (record c s) txnsOpened
     = timeseries s txnsOpened + opened [c].
Proof. destruct c; unfold opened, closed; simpl; split; lia. Qed.

Lemma opened_cons (c : Call) (calls : list Call) :
  opened (c :: calls) = opened [c] + opened calls.
Proof. unfold opened. destruct c; cbn [List.filter List.length]; lia. Qed.

Lemma closed_cons (c : Call) (calls : list Call) :
  closed (c :: calls) = closed [c] + closed calls.
Proof. unfold closed. destruct c; cbn [List.filter List.length]; lia. Qed.

(** X18: the open-transactions counter is the transactions opened minus
    the transactions closed: over any run of recording calls,
    [txnsOpen] moves by the number of recordTransactionOpened calls minus
    the number of recordTransactionClosed calls, [txnsOpened] grows by the
    number of recordTransactionOpened calls, and no other call touches
    either. *)
Theorem open_is_opened_minus_closed (calls : list Call) (s : t) :
  txnsOpen (recordAll calls s) = txnsOpen s + opened calls - closed calls
  /\ timeseries (recordAll calls s) txnsOpened
     = timeseries s txnsOpened + opened calls.
Proof.
  revert s. induction calls as [|c calls IH]; intros s.
  - unfold opened, closed. simpl. lia.
  - cbn [recordAll fold_left]. fold (recordAll calls (record c s)).
    destruct (IH (record c s)) as [-> ->].
    destruct (record_open c s) as [-> ->].
    rewrite (opened_cons c calls), (closed_cons c calls). lia.
Qed.

Lemma record_samples (c : Call) (s : t) :
  histograms (record c s) txnsPerSession
  = histograms s txnsPerSession ++ servedSamples [c]
  /\ histograms (record c s) sessionIdleTime
     = histograms s sessionIdleTime ++ idleSamples [c].
Proof.
  destruct c; unfold servedSamples, idleSamples; simpl;
    rewrite ?app_nil_r; split; reflexivity.
Qed.

(** X19: the histograms keep their samples in call order: after any run of
    recording calls [txnsPerSession] holds what it held followed by the
    arguments of the recordTransactionsServed calls, in order, and
    [sessionIdleTime] likewise those of recordSessionIdleTime; no other
    call adds a sample. *)
Theorem histogram_samples_in_order (calls : list Call) (s : t) :
  histograms (recordAll calls s) txnsPerSession
  = histograms s txnsPerSession ++ servedSamples calls
  /\ histograms (recordAll calls s) sessionIdleTime
     = histograms s sessionIdleTime ++ idleSamples calls.
Proof.
  revert s. induction calls as [|c calls IH]; intros s.
  - unfold servedSamples, idleSamples. simpl. rewrite !app_nil_r. auto.
  - cbn [recordAll fold_left]. fold (recordAll calls (record c s)).
    destruct (IH (record c s)) as [-> ->].
    destruct (record_samples c s) as [-> ->].
    rewrite <- !app_assoc.
    unfold servedSamples, idleSamples. simpl. rewrite !app_nil_r.
    split; reflexivity.
Qed.

End StatsFacts.

(** ** The dispatcher of the sample server *)

Section DispatcherFacts.
Import Dispatcher.

Lemma append_cons (c : Ascii.ascii) (s rest : string) :
  String.append (String c s) rest = String c (String.append s rest).
Proof. reflexivity. Qed.

Lemma prefix_app (s1 s2 : string) :
  String.prefix s1 s2 = true <-> exists rest, s2 = String.append s1 rest.
Proof.
  revert s2. induction s1 as [|a s1 IH]; intros s2; simpl.
  - split; [intros _; exists s2; reflexivity | destruct s2; reflexivity].
  - destruct s2 as [|b s2]; [split; [discriminate | intros [rest [=]]]|].
    simpl. destruct (Ascii.ascii_dec a b) as [->|Hne].
    + rewrite IH. split; intros [rest Hrest]; exists rest.
      * rewrite append_cons. congruence.
      * rewrite append_cons in Hrest. congruence.
    + split; [discriminate|].
      intros [rest Hrest]. rewrite append_cons in Hrest. congruence.
Qed.

(** The guard [path.size() > 1] keeps both reads inside the path. *)
Lemma startsWithSlashDigit_spec (path : string) :
  startsWithSlashDigit path = Returns (slashDigit path).
Proof.
  destruct path as [|c0 [|c1 rest]]; try reflexivity.
  unfold startsWithSlashDigit, slashDigit, at_. simpl.
  destruct (Ascii.eqb c0 slash); reflexivity.
Qed.

Lemma slashDigit_shape (path : string) :
  slashDigit path = true <->
  exists digit rest,
    path = String slash (String digit rest) /\ isdigit digit = true.
Proof.
  unfold slashDigit. destruct path as [|c0 [|c1 rest]].
  - split; [discriminate | intros (d & r & [=] & _)].
  - split; [discriminate | intros (d & r & [=] & _)].
  - rewrite andb_true_iff, Ascii.eqb_eq. split.
    + intros [-> Hd]. eauto.
    + intros (d & r & [= -> -> _] & Hd). auto.
Qed.

(** A digit is none of the letters that follow the slash in the fixed
    paths. *)
Lemma digit_path_differs (digit : Ascii.ascii) (rest other : string)
    (letter : Ascii.ascii) :
  isdigit digit = true ->
  isdigit letter = false ->
  String.eqb (String slash (String digit rest))
             (String slash (String letter other)) = false.
Proof.
  intros Hd Hl.
  change (Ascii.eqb slash slash
          && (Ascii.eqb digit letter && String.eqb rest other) = false).
  destruct (Ascii.eqb_spec digit letter) as [->|]; [congruence|].
  apply andb_false_r.
Qed.

Ltac by_path path :=
  repeat match goal with
         | |- context [String.eqb path ?literal] =>
             destruct (String.eqb_spec path literal) as [->|?];
             [try (eexists; reflexivity); try reflexivity|]
         end.

Lemma getRequestHandler_returns (path : string) (flag : bool) :
  exists handler,
    getRequestHandler path flag = Returns (handler, healthNext path flag).
Proof.
  unfold getRequestHandler, healthNext.
  rewrite startsWithSlashDigit_spec. cbn [obind].
  destruct (slashDigit path) eqn:Hdigit.
  - apply slashDigit_shape in Hdigit as (digit & rest & -> & Hdigit).
    assert (Hsingle : String.eqb (String slash (String digit rest)) "/" = false)
      by reflexivity.
    rewrite Hsingle.
    rewrite !(digit_path_differs digit rest _ _ Hdigit) by reflexivity.
    eexists. reflexivity.
  - by_path path.
    destruct (String.prefix "/push" path); eexists; reflexivity.
Qed.

(** X20: the dispatcher always makes a handler and never reads the path
    out of range, whatever the path, the empty one included; and the only
    requests that change the health-check flag are "/status_ok", which sets
    it, and "/status_fail", which clears it. *)
Theorem dispatcher_total (path : string) (flag : bool) :
  ~ refused (getRequestHandler path flag)
  /\ (exists handler,
        getRequestHandler path flag = Returns (handler, healthNext path flag))
  /\ (path <> "/status_ok" -> path <> "/status_fail" ->
      healthNext path flag = flag).
Proof.
  destruct (getRequestHandler_returns path flag) as [handler Hmade].
  split; [rewrite Hmade; simpl; tauto|]. split; [eauto|].
  intros Hok Hfail. unfold healthNext.
  destruct (String.eqb_spec path "/status_ok"); [contradiction|].
  destruct (String.eqb_spec path "/status_fail"); [contradiction|].
  reflexivity.
Qed.

Lemma serve_app (paths : list string) :
  forall flag handlers flag' path handler,
    serve paths flag = Returns (handlers, flag') ->
    getRequestHandler path flag' = Returns (handler, healthNext path flag') ->
    serve (paths ++ [path]) flag
    = Returns (handlers ++ [handler], healthNext path flag').
Proof.
  induction paths as [|p paths IH]; intros flag handlers flag' path handler.
  - simpl. intros [= <- <-] ->. reflexivity.
  - simpl. destruct (getRequestHandler p flag) as [[h f1]|msg]; simpl;
      [|discriminate].
    destruct (serve paths f1) as [[hs f2]|msg] eqn:Hrest; simpl;
      [|discriminate].
    intros [= <- <-] Hlast.
    rewrite (IH _ _ _ _ _ Hrest Hlast). reflexivity.
Qed.

(** X21: the health checks follow the last word.  However many requests a
    server has answered, the flag it is left with is the one that the last
    "/status_ok" or "/status_fail" among them set (the initial one if there
    was none), and a "/status" request that comes next is answered with a
    health-check handler carrying exactly that flag. *)
Theorem health_follows_last_word (paths : list string) (flag : bool) :
  exists handlers,
    serve paths flag = Returns (handlers, healthAfter paths flag)
    /\ List.length handlers = List.length paths
    /\ serve (paths ++ ["/status"]) flag
       = Returns (handlers ++ [HealthCheckHandler (healthAfter paths flag)],
                  healthAfter paths flag).
Proof.
  assert (Hrun : exists handlers,
             serve paths flag = Returns (handlers, healthAfter paths flag)
             /\ List.length handlers = List.length paths).
  { revert flag. induction paths as [|p paths IH]; intros flag; simpl.
    - exists []. auto.
    - destruct (getRequestHandler_returns p flag) as [h ->]. simpl.
      destruct (IH (healthNext p flag)) as (hs & -> & Hlen). simpl.
      exists (h :: hs). simpl. auto. }
  destruct Hrun as (handlers & Hserve & Hlen).
  exists handlers. split; [exact Hserve|]. split; [exact Hlen|].
  exact (serve_app _ _ _ _ "/status" _ Hserve eq_refl).
Qed.

(** X22: every path that begins with "/push" is served by the push
    handler: no earlier branch takes such a path, and the exact matches
    that come later never see it. *)
Theorem push_prefix_routed (suffix : string) (flag : bool) :
  getRequestHandler (String.append "/push" suffix) flag
  = Returns (ServerPushHandler, flag).
Proof.
  unfold getRequestHandler. rewrite startsWithSlashDigit_spec.
  assert (Hprefix : String.prefix "/push" (String.append "/push" suffix) = true)
    by (apply prefix_app; eauto).
  rewrite Hprefix. reflexivity.
Qed.

(** X23: every path whose second character is a digit, after the slash, is
    served by the random-bytes handler, whatever follows the digit. *)
Theorem digit_path_routed (digit : Ascii.ascii) (rest : string) (flag : bool) :
  isdigit digit = true ->
  getRequestHandler (String slash (String digit rest)) flag
  = Returns (RandBytesGenHandler, flag).
Proof.
  intros Hdigit. unfold getRequestHandler.
  rewrite startsWithSlashDigit_spec.
  assert (Hsingle : String.eqb (String slash (String digit rest)) "/" = false)
    by reflexivity.
  rewrite Hsingle.
  rewrite !(digit_path_differs digit rest _ _ Hdigit) by reflexivity.
  simpl. rewrite Hdigit. reflexivity.
Qed.

(** X24: what a handler says about the path it was made for.  Every
    handler but the dummy one is made for its own paths only: the echo
    handler for "/" and "/echo", the push handler for the paths that begin
    with "/push", the random-bytes handler for a slash and a digit, and so
    on; and a health-check handler carries the flag of the server for
    "/status" and true for "/status_ok" and "/status_fail". *)
Theorem handler_tells_path (path : string) (flag flag' : bool)
    (handler : RequestHandler) :
  getRequestHandler path flag = Returns (handler, flag') ->
  match handler with
  | EchoHandler => path = "/" \/ path = "/echo"
  | ContinueHandler => path = "/continue"
  | RandBytesGenHandler =>
      exists digit rest,
        path = String slash (String digit rest) /\ isdigit digit = true
  | HealthCheckHandler healthy =>
      (path = "/status" /\ healthy = flag)
      \/ ((path = "/status_ok" \/ path = "/status_fail") /\ healthy = true)
  | WaitReleaseHandler => path = "/wait" \/ path = "/release"
  | PrCatHandler => path = "/pr_cat"
  | ServerPushHandler => exists suffix, path = String.append "/push" suffix
  | PrSkipHandler => path = "/pr_scripted_skip"
  | PrRejectHandler => path = "/pr_scripted_reject"
  | DummyHandler => True
  end.
Proof.
  unfold getRequestHandler. rewrite startsWithSlashDigit_spec.
  destruct (String.eqb_spec path "/") as [->|];
    [intros [= <- <-]; auto|].
  destruct (String.eqb_spec path "/echo") as [->|];
    [intros [= <- <-]; auto|].
  cbn [orb].
  destruct (String.eqb_spec path "/continue") as [->|];
    [intros [= <- <-]; auto|].
  cbn [obind].
  destruct (slashDigit path) eqn:Hdigit;
    [intros [= <- <-]; apply slashDigit_shape; exact Hdigit|].
  destruct (String.eqb_spec path "/status") as [->|];
    [intros [= <- <-]; auto|].
  destruct (String.eqb_spec path "/status_ok") as [->|];
    [intros [= <- <-]; auto|].
  destruct (String.eqb_spec path "/status_fail") as [->|];
    [intros [= <- <-]; auto|].
  destruct (String.eqb_spec path "/wait") as [->|];
    [intros [= <- <-]; auto|].
  destruct (String.eqb_spec path "/release") as [->|];
    [intros [= <- <-]; auto|].
  cbn [orb].
  destruct (String.eqb_spec path "/pr_cat") as [->|];
    [intros [= <- <-]; auto|].
  destruct (String.prefix "/push" path) eqn:Hpush;
    [intros [= <- <-]; apply prefix_app; exact Hpush|].
  destruct (String.eqb_spec path "/pr_scripted_skip") as [->|];
    [intros [= <- <-]; auto|].
  destruct (String.eqb_spec path "/pr_scripted_reject") as [->|];
    [intros [= <- <-]; auto|].
  intros [= <- <-]. exact I.
Qed.

End DispatcherFacts.

(** ** The further properties at work *)

Section MoreWorked.
Import StateMachine Examples MoreExamples.
#[local] Existing Instance HTTPTransactionEgressSM.specData.


(** A request received in full is complete, so its EOM has been seen. *)
Lemma progress_predicates_ordered_witness :
  isIngressComplete receivedTxn = true
  /\ isIngressEOMSeen receivedTxn = true.
Proof.
  split; [reflexivity|].
  exact (proj1 (progress_predicates_ordered receivedTxn) eq_refl).
Defined.

(** Trailers right after the headers, and a chunk header on an HTTP/1.1
    codec. *)
Lemma egress_calls_effect_witness :
  exists t1 t2,
    (sendTrailers [] headersSentTxn = Returns t1
     /\ t1 = set_trailers_ (Some [])
               (set_egressState_ HTTPTransactionEgressSM.TrailersSent
                  headersSentTxn))
    /\ sendChunkHeader serialTransport 4 headersSentTxn = Returns t2
    /\ t2 = set_chunkHeaders_ [mkChunk 4 false]
              (set_egressState_ HTTPTransactionEgressSM.ChunkHeaderSent
                 headersSentTxn).
Proof.
  eexists. eexists. split; [split; [reflexivity|] | split; [reflexivity|]].
  - exact (proj2 (proj2 (egress_calls_effect serialTransport headersSentTxn
                           _ 0 [])) eq_refl).
  - exact (proj1 (egress_calls_effect serialTransport headersSentTxn _ 4 [])
             eq_refl).
Defined.

(** The push of [pushingTransport] under a downstream transaction. *)
Lemma newPushedTransaction_keeps_pushed_witness :
  exists result t',
    newPushedTransaction pushingTransport 7 downstreamTxn
    = Returns (result, t')
    /\ pushedTransactions_ downstreamTxn ⊆ pushedTransactions_ t'.
Proof.
  eexists. eexists. split; [reflexivity|].
  exact (proj1 (newPushedTransaction_keeps_pushed pushingTransport 7
                  downstreamTxn _ _ eq_refl)).
Defined.

Lemma push_then_remove_witness :
  exists pushed t',
    newPushedTransaction pushingTransport 7 downstreamTxn
    = Returns (Some pushed, t')
    /\ removePushedTransaction (getID pushed) t' = downstreamTxn.
Proof.
  eexists. eexists. split; [reflexivity|].
  apply (push_then_remove pushingTransport 7); [reflexivity|].
  simpl. apply not_elem_of_empty.
Defined.

(** Removing a push that was never made. *)
Lemma removePushedTransaction_exact_witness :
  (2 ∉ pushedTransactions_ downstreamTxn)
  /\ removePushedTransaction 2 downstreamTxn = downstreamTxn.
Proof.
  assert (Habsent : 2 ∉ pushedTransactions_ downstreamTxn)
    by (simpl; apply not_elem_of_empty).
  split; [exact Habsent|].
  exact (proj1 (proj2 (removePushedTransaction_exact 2 downstreamTxn)) Habsent).
Defined.

(** An extended transaction opened on a partially reliable transaction. *)
Lemma newExTransaction_result_witness :
  partiallyReliable_ partiallyReliableTxn = true
  /\ exists ex,
       fst (newExTransaction exTransport 7 true partiallyReliableTxn) = Some ex
       /\ removeExTransaction (getID ex)
            (snd (newExTransaction exTransport 7 true partiallyReliableTxn))
          = partiallyReliableTxn.
Proof.
  split; [reflexivity|]. eexists. split; [reflexivity|].
  apply (proj2 (proj2 (proj2 (newExTransaction_result exTransport 7 true
                                partiallyReliableTxn)) _ eq_refl)).
  simpl. apply not_elem_of_empty.
Defined.

(** The peer opened the unidirectional transaction: egress errors are
    notified, ingress errors are not. *)
Lemma shouldNotifyExTxnError_one_direction_witness :
  isUnidirectional unidirectionalTxn = true
  /\ shouldNotifyExTxnError INGRESS unidirectionalTxn
     = negb (shouldNotifyExTxnError EGRESS unidirectionalTxn).
Proof.
  split; [reflexivity|].
  exact (proj2 (proj2 (shouldNotifyExTxnError_one_direction unidirectionalTxn))
           eq_refl).
Defined.

Lemma new_pending_in_range :
  0 <= pendingByteEvents_ downstreamTxn <= UINT8_MAX.
Proof. vm_compute. split; discriminate. Qed.

Lemma pendingByteEvents_round_trip_witness :
  exists t1,
    incrementPendingByteEvents downstreamTxn = Returns t1
    /\ decrementPendingByteEvents t1 = Returns downstreamTxn.
Proof.
  eexists. split; [reflexivity|].
  exact (proj1 (pendingByteEvents_round_trip downstreamTxn _
                  new_pending_in_range) eq_refl).
Defined.

Lemma pendingByteEvents_counts_witness :
  exists t',
    byteEventCalls
      [IncrementPendingByteEvents; IncrementPendingByteEvents;
       DecrementPendingByteEvents] downstreamTxn = Returns t'
    /\ pendingByteEvents_ t' = 1.
Proof.
  eexists. split; [reflexivity|].
  exact (proj1 (pendingByteEvents_counts
                  [IncrementPendingByteEvents; IncrementPendingByteEvents;
                   DecrementPendingByteEvents]
                  downstreamTxn _ new_pending_in_range eq_refl)).
Defined.

(** The 256th increment in a row. *)
Lemma pendingByteEvents_capacity_witness :
  (~ refused (byteEventCalls (repeat IncrementPendingByteEvents 255)
                downstreamTxn))
  /\ ~ ~ refused (byteEventCalls (repeat IncrementPendingByteEvents 256)
                    downstreamTxn).
Proof.
  split.
  - apply (pendingByteEvents_capacity 255 downstreamTxn new_pending_in_range).
    vm_compute. discriminate.
  - intros Hpasses.
    apply (pendingByteEvents_capacity 256 downstreamTxn new_pending_in_range)
      in Hpasses.
    vm_compute in Hpasses. apply Hpasses. reflexivity.
Defined.

Lemma delivery_tracking_needs_partial_reliability_witness :
  setBodyLastByteDeliveryTrackingEnabled true downstreamTxn freshFlags
  = (Unexpected PROTOCOL_ERROR, freshFlags)
  /\ fst (setBodyLastByteDeliveryTrackingEnabled true partiallyReliableTxn
            freshFlags) = Value tt.
Proof.
  destruct (delivery_tracking_needs_partial_reliability true downstreamTxn
              freshFlags) as (Herror & Hsame & _).
  split.
  - apply injective_projections;
      [apply (proj2 Herror) | apply Hsame]; reflexivity.
  - destruct (delivery_tracking_needs_partial_reliability true
                partiallyReliableTxn freshFlags) as (_ & _ & Hok & _).
    exact (proj1 (Hok eq_refl)).
Defined.

(** A request that is none of the two health switches. *)
Lemma dispatcher_total_witness :
  Dispatcher.healthNext "/echo" false = false.
Proof.
  apply (proj2 (proj2 (dispatcher_total "/echo" false))); discriminate.
Defined.

Lemma digit_path_routed_witness :
  Dispatcher.getRequestHandler "/7/bytes" true
  = Returns (Dispatcher.RandBytesGenHandler, true).
Proof.
  exact (digit_path_routed (Ascii.ascii_of_nat 55) "/bytes" true eq_refl).
Defined.

Lemma handler_tells_path_witness :
  exists suffix, "/push/a.css" = String.append "/push" suffix.
Proof.
  exact (handler_tells_path "/push/a.css" true true
           Dispatcher.ServerPushHandler eq_refl).
Defined.

(** A morning of a sample server: healthy, switched off, asked twice, and
    switched on again. *)
Example health_switch :
  Dispatcher.serve
    ["/status"; "/status_fail"; "/status"; "/7"; "/status"; "/status_ok";
     "/status"] true
  = Returns
      ([Dispatcher.HealthCheckHandler true; Dispatcher.HealthCheckHandler true;
        Dispatcher.HealthCheckHandler false; Dispatcher.RandBytesGenHandler;
        Dispatcher.HealthCheckHandler false; Dispatcher.HealthCheckHandler true;
        Dispatcher.HealthCheckHandler true],
       true).
Proof. reflexivity. Qed.

End MoreWorked.
